(** * evanlouie/go: the multi-document YAML pipeline of [pkg/yaml] and [pkg/helm]

    A shallow embedding of [yaml.Decode], [yaml.DecodeMaps] (package yaml),
    [injectNamespace], [injectNamespaceBack], [cleanManifest], [Template]
    (pkg/helm/template.go) and [Pull] (package helm), with the properties
    the design document states about them.

    Conventions of the embedding.
    - A Go [string] and a [[]byte] are a [string] (a sequence of bytes).
    - A value of type [interface{}] is a [value]; a [map[string]interface{}]
      is an [option (gmap string value)], [None] being the nil map.
    - A Go result pair [(T, error)] is a pair [T * option error].
    - A run-time panic is an explicit outcome ([Panics]).
    - gopkg.in/yaml.v3, os/exec and the repository lookup are collaborators
      outside the package: they are the fields of [YamlLib] and [HelmEnv]. *)

From Stdlib Require Import ZArith String Ascii.
From stdpp Require Import base option strings gmap list.

#[local] Set Warnings "-register-all".
#[local] Open Scope string_scope.
#[local] Open Scope list_scope.

(* ===================================================================== *)
(** ** Package strings of the Go standard library *)
(* ===================================================================== *)

Module GoStrings.

Definition nl : string := String (ascii_of_nat 10) "".

Definition of_bytes (l : list nat) : string :=
  string_of_list_ascii (map ascii_of_nat l).

Definition drop_bytes (n : nat) (s : string) : string :=
  String.substring n (String.length s - n) s.

Definition reverse (s : string) : string :=
  string_of_list_ascii (rev (list_ascii_of_string s)).

(** [strings.Join(elems, sep)] *)
Fixpoint Join (elems : list string) (sep : string) : string :=
  match elems with
  | [] => ""
  | [e] => e
  | e :: rest => e +:+ sep +:+ Join rest sep
  end.

(** The scan of [strings.Split(s, sep)] for a non-empty [sep]: [cur] is the
    piece being read, [skip] counts the bytes of a separator that was just
    matched and still has to be stepped over. Matches are taken leftmost and
    do not overlap, as [strings.Index] finds them. *)
Fixpoint Split_scan (sep : string) (skip : nat) (cur s : string) : list string :=
  match s with
  | EmptyString => [cur]
  | String c s' =>
      match skip with
      | S k => Split_scan sep k cur s'
      | O =>
          if String.prefix sep s
          then cur :: Split_scan sep (String.length sep - 1) "" s'
          else Split_scan sep 0 (cur +:+ String c "") s'
      end
  end.

(** [strings.Split(s, sep)]. With the empty separator Go explodes [s] into
    its UTF-8 sequences; the package never does that, and the model explodes
    into bytes there (the two agree on ASCII text). *)
Definition Split (s sep : string) : list string :=
  match sep with
  | EmptyString => map (fun c => String c "") (list_ascii_of_string s)
  | _ => Split_scan sep 0 "" s
  end.

(** The UTF-8 encodings of the runes for which [unicode.IsSpace] holds:
    tab, LF, VT, FF, CR, space, U+0085, U+00A0, U+1680, U+2000..U+200A,
    U+2028, U+2029, U+202F, U+205F, U+3000. *)
Definition space_runes : list string :=
  map of_bytes
    [ [9]; [10]; [11]; [12]; [13]; [32];
      [194; 133]; [194; 160]; [225; 154; 128];
      [226; 128; 128]; [226; 128; 129]; [226; 128; 130]; [226; 128; 131];
      [226; 128; 132]; [226; 128; 133]; [226; 128; 134]; [226; 128; 135];
      [226; 128; 136]; [226; 128; 137]; [226; 128; 138];
      [226; 128; 168]; [226; 128; 169]; [226; 128; 175];
      [226; 129; 159]; [227; 128; 128] ].

(** Drop one leading rune of [runes] from [s], if there is one. *)
Fixpoint strip_prefix_of (runes : list string) (s : string) : option string :=
  match runes with
  | [] => None
  | r :: runes' =>
      if String.prefix r s then Some (drop_bytes (String.length r) s)
      else strip_prefix_of runes' s
  end.

Fixpoint trim_left_runes (fuel : nat) (runes : list string) (s : string) : string :=
  match fuel with
  | O => s
  | S fuel' =>
      match strip_prefix_of runes s with
      | Some s' => trim_left_runes fuel' runes s'
      | None => s
      end
  end.

Definition TrimLeftSpace (s : string) : string :=
  trim_left_runes (String.length s) space_runes s.

Definition TrimRightSpace (s : string) : string :=
  reverse (trim_left_runes (String.length s) (map reverse space_runes) (reverse s)).

(** [strings.TrimSpace(s)]: all leading and trailing white space removed. *)
Definition TrimSpace (s : string) : string :=
  TrimRightSpace (TrimLeftSpace s).

End GoStrings.

Import GoStrings.

(* ===================================================================== *)
(** ** Go values, errors and outcomes *)
(* ===================================================================== *)

(** A dynamically typed Go value, as held by an [interface{}]. [VMap None]
    is a nil [map[string]interface{}] (a typed nil, different from [VNil]);
    [VOther ty] stands for a value of any other dynamic type [ty]
    (float64, time.Time, map[interface{}]interface{}, ...). A map stored
    inside another value is carried by value: the documents handled here
    are trees, so an in-place update of an inner map is the update of the
    entry that holds it. *)
Inductive value : Type :=
| VNil
| VBool (b : bool)
| VInt (n : Z)
| VString (s : string)
| VSlice (l : list value)
| VMap (m : option (gmap string value))
| VOther (ty : string).

(** A [map[string]interface{}] reference: [None] is the nil map. *)
Abbreviation gomap := (option (gmap string value)).

(** The errors the two packages build with [fmt.Errorf]. A message that
    renders a Go value with [%+v] keeps the value instead of its rendering;
    [%w] keeps the wrapped error. *)
Inductive error : Type :=
| Errorf (msg : string)
| ErrReflectValue (v : value)
    (* `unable to reflect value %+v as a map[string]interface{}` *)
| ErrReflectMetadata (manifest : gomap)
    (* `reflecting metadata of yaml manifest: %+v` *)
| ErrExistingNamespace (manifest : gomap)
    (* `existing namespace found in yaml: %+v` *)
| ErrUnmarshalling (unifiedManifest : string) (cause : error)
    (* `unmarshalling yaml into []map[string]interface{}: %s: %w` *)
| ErrMetadataNotMap (manifest : gomap)
    (* `"metadata" of manifest is not a map[string]interface{}: %+v` *)
| ErrMarshalling (manifest : gomap) (cause : error)
    (* `marshalling yaml for %+v: %w` *)
| ErrSearchingRepos (repo : string) (cause : error)
    (* `searching existing helm repositories for %s: %w` *)
| ErrRunning (cmd : list string) (cause : error) (stderr : string)
    (* `running "%s": %v: %v` and, in Pull, "%w: %v" *)
| ErrStderrOutput (cmd : list string) (stderr : string)
    (* `"%s" exited with output to stderr: %s` *).

(** What a call does: it returns, or the Go runtime panics. *)
Inductive outcome (A : Type) : Type :=
| Returns (a : A)
| Panics (reason : string).
Arguments Returns {A} a.
Arguments Panics {A} reason.

(** [m[k]] on a map reference: the zero value [nil] when the key is absent,
    also when [m] is the nil map. *)
Definition map_index (m : gomap) (k : string) : value :=
  match m with
  | Some entries => default VNil (entries !! k)
  | None => VNil
  end.

(** [_, ok := m[k]] *)
Definition map_has (m : gomap) (k : string) : bool :=
  match m with
  | Some entries => bool_decide (is_Some (entries !! k))
  | None => false
  end.

(** [m[k] = v]: the runtime panics when [m] is the nil map. *)
Definition map_assign (m : gomap) (k : string) (v : value) : outcome gomap :=
  match m with
  | Some entries => Returns (Some (<[k := v]> entries))
  | None => Panics "assignment to entry in nil map"
  end.

(** [v == nil] and [v == s] on an [interface{}]. *)
Definition is_nil (v : value) : bool :=
  match v with VNil => true | _ => false end.

Definition is_string (s : string) (v : value) : bool :=
  match v with VString s' => String.eqb s' s | _ => false end.

(* ===================================================================== *)
(** ** gopkg.in/yaml.v3, as the packages use it *)
(* ===================================================================== *)

(** The result of one call [decoder.Decode(&value)] that is not [io.EOF]. *)
Inductive decode_result : Type :=
| DecodeValue (v : value)
| DecodeError (e : error).

(** The library is a collaborator. [yaml_NewDecoder doc] is the decoder on
    [doc], given by the results of its successive [Decode] calls up to the
    first [io.EOF] (a decoder on a finite input yields finitely many
    documents). [yaml_Unmarshal_map entry] is the error of
    [yaml.Unmarshal(entry, &m)] for [m] of type [map[string]interface{}];
    [yaml_Marshal v] is the result pair of [yaml.Marshal(v)]. *)
Class YamlLib : Type := {
  yaml_NewDecoder : string -> list decode_result;
  yaml_Unmarshal_map : string -> option error;
  yaml_Marshal : value -> string * option error
}.

(* ===================================================================== *)
(** ** Package yaml: Decode and DecodeMaps *)
(* ===================================================================== *)

(** The [for] loop of [Decode]: [decoder] is what is left of the decoder,
    [values] the slice built so far. *)
Fixpoint Decode_loop (doc : string) (decoder : list decode_result)
    (values : list value) : list value * option error :=
  match decoder with
  | [] =>
      (* err == io.EOF: return the values *)
      (values, None)
  | DecodeError _ :: _ =>
      (* err != nil: return the error *)
      ([], Some (Errorf ("decoding yaml in yaml document " +:+ doc)))
  | DecodeValue value :: decoder' =>
      (* append the decoded value *)
      Decode_loop doc decoder' (values ++ [value])
  end.

Definition Decode `{YamlLib} (doc : string) : list value * option error :=
  Decode_loop doc (yaml_NewDecoder doc) [].

(** The [range] loop of [DecodeMaps] over the decoded [values]. *)
Fixpoint DecodeMaps_loop (values : list value) (maps : list gomap)
    : list gomap * option error :=
  match values with
  | [] => (maps, None)
  | value :: values' =>
      match value with
      | VNil =>
          (* value == nil: [decoded] keeps its zero value, the nil map *)
          DecodeMaps_loop values' (maps ++ [None])
      | VMap decoded =>
          (* the type assertion succeeds *)
          DecodeMaps_loop values' (maps ++ [decoded])
      | _ =>
          ([], Some (ErrReflectValue value))
      end
  end.

Definition DecodeMaps `{YamlLib} (doc : string) : list gomap * option error :=
  match Decode doc with
  | (_, Some err) => ([], Some err)
  | (values, None) => DecodeMaps_loop values []
  end.

(* ===================================================================== *)
(** ** Package helm: namespace injection *)
(* ===================================================================== *)

(** The maps a caller owns live in a store; a manifest handed to
    [injectNamespace] is a reference into it ([None]: the nil map). *)
Abbreviation loc := positive.
Abbreviation store := (gmap loc (gmap string value)).

(** [injectNamespace(manifest, namespace)]: the store after the call and
    the returned pair. In Go a reference is never dangling; the model is
    made total by a panic there. *)
Definition injectNamespace (σ : store) (manifest : option loc) (namespace : string)
    : outcome (store * (option loc * option error)) :=
  match manifest with
  | None => Returns (σ, (None, None))
  | Some l =>
      match σ !! l with
      | None => Panics "invalid memory address"
      | Some entries =>
          (* inject the metadata map if it is not present *)
          let σ1 :=
            if map_has (Some entries) "metadata" then σ
            else <[l := <["metadata" := VMap (Some ∅)]> entries]> σ in
          let manifest1 := σ1 !! l in
          match map_index manifest1 "metadata" with
          | VMap metadata =>
              if negb (is_nil (map_index metadata "namespace"))
              then Returns (σ1, (None, Some (ErrExistingNamespace manifest1)))
              else
                match map_assign metadata "namespace" (VString namespace) with
                | Panics r => Panics r
                | Returns metadata' =>
                    (* [metadata] is the map held by manifest["metadata"] *)
                    Returns (alter (insert "metadata" (VMap metadata')) l σ1,
                             (Some l, None))
                end
          | _ => Returns (σ1, (None, Some (ErrReflectMetadata manifest1)))
          end
      end
  end.

(** One turn of the loop of [injectNamespaceBack] up to the call of
    [yaml.Marshal]: the manifest after it, and the error if the turn
    returns one. *)
Definition injectNamespaceBack_entry (manifest : gomap) (namespace : string)
    : outcome (gomap * option error) :=
  match map_index manifest "metadata" with
  | VNil =>
      (* nil? create the metadata map *)
      match map_assign manifest "metadata"
              (VMap (Some {["namespace" := VString namespace]})) with
      | Panics r => Panics r
      | Returns manifest' => Returns (manifest', None)
      end
  | VMap metadata =>
      let ok := true in
      if (ok && is_nil (map_index metadata "namespace"))
         || is_string "" (map_index metadata "namespace")
      then
        match map_assign metadata "namespace" (VString namespace) with
        | Panics r => Panics r
        | Returns metadata' =>
            (* [metadata] is the map held by manifest["metadata"] *)
            Returns (insert "metadata" (VMap metadata') <$> manifest, None)
        end
      else Returns (manifest, None)
  | _ =>
      (* its not a map[string]interface{}? error! *)
      Returns (manifest, Some (ErrMetadataNotMap manifest))
  end.

Fixpoint injectNamespaceBack_loop `{YamlLib} (manifests : list gomap)
    (namespace : string) (withInjectedNS : list string)
    : outcome (string * option error) :=
  match manifests with
  | [] => Returns (Join withInjectedNS (nl +:+ "---" +:+ nl), None)
  | manifest :: manifests' =>
      match injectNamespaceBack_entry manifest namespace with
      | Panics r => Panics r
      | Returns (_, Some err) => Returns ("", Some err)
      | Returns (manifest', None) =>
          match yaml_Marshal (VMap manifest') with
          | (_, Some err) => Returns ("", Some (ErrMarshalling manifest' err))
          | (marshalBytes, None) =>
              injectNamespaceBack_loop manifests' namespace
                (withInjectedNS ++ [marshalBytes])
          end
      end
  end.

(** [injectNamespaceBack(unifiedManifest, namespace)], up to its [return]
    (the statements after it are unreachable). *)
Definition injectNamespaceBack `{YamlLib} (unifiedManifest namespace : string)
    : outcome (string * option error) :=
  match DecodeMaps unifiedManifest with
  | (_, Some err) => Returns ("", Some (ErrUnmarshalling unifiedManifest err))
  | (manifests, None) => injectNamespaceBack_loop manifests namespace []
  end.

(* ===================================================================== *)
(** ** Package helm: cleanManifest *)
(* ===================================================================== *)

(** One turn of the loop of [cleanManifest]. *)
Definition cleanManifest_entry `{YamlLib} (cleaned : list string) (entry : string)
    : list string :=
  match yaml_Unmarshal_map entry with
  | Some _ =>
      (* if it doesn't unmarshal properly, do not add *)
      cleaned
  | None =>
      (* only append documents with a non-empty body *)
      if Nat.ltb 0 (String.length (TrimSpace entry)) then cleaned ++ [entry] else cleaned
  end.

Definition cleanManifest `{YamlLib} (manifest : string) : string * option error :=
  let manifests := Split manifest (nl +:+ "---") in
  let cleaned := fold_left cleanManifest_entry manifests [] in
  let joined := TrimSpace (Join cleaned (nl +:+ "---")) in
  (joined, None).

(* ===================================================================== *)
(** ** Package helm: the helm command lines of Template and Pull *)
(* ===================================================================== *)

(** [TemplateOptions]; the field [Set] is [Set_] here. *)
Record TemplateOptions : Type := {
  Release : string;
  Chart : string;
  Repo : string;
  Version : string;
  Namespace : string;
  Values : list string;
  Set_ : list string
}.

Definition with_Chart (opts : TemplateOptions) (chart : string) : TemplateOptions :=
  {| Release := Release opts; Chart := chart; Repo := Repo opts;
     Version := Version opts; Namespace := Namespace opts;
     Values := Values opts; Set_ := Set_ opts |}.

(** What [cmd.Run()] leaves behind: its error and the two buffers. *)
Record exec_result : Type := {
  run_error : option error;
  run_stdout : string;
  run_stderr : string
}.

(** The collaborators of package helm: [FindRepoNameByURL] (the lookup of
    a local alias of a repository URL), [path.Join] on two elements, and
    the run of [exec.Command("helm", args...)]. *)
Class HelmEnv : Type := {
  FindRepoNameByURL : string -> string * option error;
  path_Join : string -> string -> string;
  exec_helm : list string -> exec_result
}.

Definition nonempty (s : string) : bool := negb (String.eqb s "").

(** The arguments [Template] hands to [exec.Command("helm", ...)], or the
    error with which it returns before that. *)
Definition Template_command `{HelmEnv} (opts : TemplateOptions)
    : list string * option error :=
  let templateArgs := ["template"] in
  let repo_step :=
    if nonempty (Repo opts) then
      (* if an existing helm repo exists on the helm client, use that *)
      match FindRepoNameByURL (Repo opts) with
      | (_, Some err) => (opts, templateArgs, Some (ErrSearchingRepos (Repo opts) err))
      | (existingRepo, None) =>
          if nonempty existingRepo
          then (with_Chart opts (existingRepo +:+ "/" +:+ Chart opts), templateArgs, None)
          else (opts, (templateArgs ++ ["--repo"; Repo opts]), None)
      end
    else (opts, templateArgs, None) in
  match repo_step with
  | (_, _, Some err) => ([], Some err)
  | (opts, templateArgs, None) =>
      let templateArgs :=
        if nonempty (Namespace opts)
        then (templateArgs ++ ["--create-namespace"; "--namespace"; Namespace opts])
        else templateArgs in
      let templateArgs :=
        fold_left (fun args set => (args ++ ["--set"; set])) (Set_ opts) templateArgs in
      let templateArgs :=
        fold_left (fun args yamlPath => (args ++ ["--values"; yamlPath])) (Values opts)
          templateArgs in
      let templateArgs :=
        if nonempty (Release opts) then (templateArgs ++ [Release opts])
        else templateArgs in
      ((templateArgs ++ [Chart opts]), None)
  end.

Definition Template `{HelmEnv} (opts : TemplateOptions) : string * option error :=
  match Template_command opts with
  | (_, Some err) => ("", Some err)
  | (templateArgs, None) =>
      let run := exec_helm templateArgs in
      match run_error run with
      | Some err => ("", Some (ErrRunning ("helm" :: templateArgs) err (run_stderr run)))
      | None =>
          if negb (Nat.eqb (String.length (run_stderr run)) 0)
          then ("", Some (ErrStderrOutput ("helm" :: templateArgs) (run_stderr run)))
          else (run_stdout run, None)
      end
  end.

(** The arguments [Pull] hands to [exec.Command("helm", ...)], or the error
    with which it returns before that. *)
Definition Pull_command `{HelmEnv} (repoURL chart version into : string)
    : list string * option error :=
  (* check if existing repo with same URL in host client *)
  match FindRepoNameByURL repoURL with
  | (_, Some err) => ([], Some err)
  | (existingRepo, None) =>
      let '(chart, repoURL) :=
        if nonempty existingRepo
        then (path_Join existingRepo chart, "")
        else (chart, repoURL) in
      let pullArgs := ["pull"; chart; "--untar"; "--untardir"; into] in
      let pullArgs :=
        if nonempty version then (pullArgs ++ ["--version"; version]) else pullArgs in
      let pullArgs :=
        if nonempty repoURL then (pullArgs ++ ["--repo"; repoURL]) else pullArgs in
      (pullArgs, None)
  end.

Definition Pull `{HelmEnv} (repoURL chart version into : string) : option error :=
  match Pull_command repoURL chart version into with
  | (_, Some err) => Some err
  | (pullArgs, None) =>
      let run := exec_helm pullArgs in
      match run_error run with
      | Some err => Some (ErrRunning ("helm" :: pullArgs) err (run_stderr run))
      | None => None
      end
  end.

(* ===================================================================== *)
(** ** The backfill, as the design document words it *)
(* ===================================================================== *)

(** [metadata.namespace] of a manifest: nil when there is none. *)
Definition carried_namespace (entries : gmap string value) : value :=
  match entries !! "metadata" with
  | Some (VMap metadata) => map_index metadata "namespace"
  | _ => VNil
  end.

(** The namespace is missing, null or the empty string. *)
Definition lacks_namespace (entries : gmap string value) : bool :=
  is_nil (carried_namespace entries) || is_string "" (carried_namespace entries).

(** The manifest with [metadata.namespace] set, the rest of its metadata
    kept. *)
Definition with_namespace (namespace : string) (entries : gmap string value)
    : gmap string value :=
  let metadata :=
    match entries !! "metadata" with
    | Some (VMap (Some metadata)) => metadata
    | _ => ∅
    end in
  <["metadata" := VMap (Some (<["namespace" := VString namespace]> metadata))]> entries.

(** Best-effort backfill: a manifest that lacks a namespace receives the
    supplied one, any other manifest is left as it is. *)
Definition backfill (namespace : string) (entries : gmap string value)
    : gmap string value :=
  if lacks_namespace entries then with_namespace namespace entries else entries.

(** The invariant of a Manifest: its metadata, when there is one, is a
    mapping (a metadata key holding null counts as no metadata). *)
Definition Manifest (entries : gmap string value) : Prop :=
  match entries !! "metadata" with
  | None | Some VNil | Some (VMap (Some _)) => True
  | _ => False
  end.

(** The manifest a turn of the loop of [injectNamespaceBack] hands to
    [yaml.Marshal]. *)
Definition injected (namespace : string) (manifest : gomap) : gomap :=
  match injectNamespaceBack_entry manifest namespace with
  | Returns (manifest', _) => manifest'
  | Panics _ => manifest
  end.

(** A fragment survives the cleaning when it parses as a mapping and is
    not empty once trimmed. *)
Definition survives `{YamlLib} (entry : string) : bool :=
  match yaml_Unmarshal_map entry with
  | None => nonempty (TrimSpace entry)
  | Some _ => false
  end.

(** The flags [Template] derives from the options other than the
    repository and the chart, in the order of the command line. *)
Definition option_flags (opts : TemplateOptions) : list string :=
  (if nonempty (Namespace opts)
   then ["--create-namespace"; "--namespace"; Namespace opts] else [])
  ++ concat ((λ set, ["--set"; set]) <$> Set_ opts)
  ++ concat ((λ yamlPath, ["--values"; yamlPath]) <$> Values opts)
  ++ (if nonempty (Release opts) then [Release opts] else []).


(** The shapes [DecodeMaps] accepts: a null document and a mapping. *)
Definition null_or_mapping (v : value) : Prop :=
  match v with VNil | VMap _ => True | _ => False end.

#[local] Instance null_or_mapping_dec (v : value) : Decision (null_or_mapping v).
Proof. destruct v; simpl; apply _. Defined.

(** What an accepted document contributes: the mapping itself, or the nil
    map as the placeholder of a null document. *)
Definition contribution (v : value) : gomap :=
  match v with VMap m => m | _ => None end.

(** A turn of the loop of [injectNamespaceBack] goes through when the entry
    step returns without an error and its manifest marshals to [text]. *)
Definition turn `{YamlLib} (namespace : string) (manifest : gomap) (text : string)
    : Prop :=
  ∃ manifest',
    injectNamespaceBack_entry manifest namespace = Returns (manifest', None)
    ∧ yaml_Marshal (VMap manifest') = (text, None).

(** The three-document text of the cleaning scenario. *)
Definition three_documents : string :=
  "foo: I am valid" +:+ nl +:+ "---" +:+ nl +:+ "I'm not valid" +:+ nl +:+ "---"
  +:+ nl +:+ "bar: I am valid".

(* ===================================================================== *)
(** ** Sample collaborators *)
(* ===================================================================== *)

(** A YAML library and a helm environment cut down to a handful of texts,
    on which the statements below are run. *)
Module Sample.

Definition service : gmap string value := {["kind" := VString "Service"]}.

Definition service_text : string := "kind: Service".

Definition service_in_prod : gmap string value :=
  <["metadata" := VMap (Some {["namespace" := VString "prod"]})]> service.

Definition service_in_prod_text : string :=
  "kind: Service" +:+ nl +:+ "metadata:" +:+ nl +:+ "    namespace: prod" +:+ nl.

Definition two_mappings_and_a_sequence : string :=
  "foo: bar" +:+ nl +:+ "---" +:+ nl +:+ "baz: zoo" +:+ nl +:+ "---" +:+ nl
  +:+ "- a" +:+ nl +:+ "- b".

Definition broken_text : string :=
  "kind: Service" +:+ nl +:+ "---" +:+ nl +:+ "kind: [".

Fixpoint has_infix (p s : string) : bool :=
  String.prefix p s
  || match s with
     | EmptyString => false
     | String _ s' => has_infix p s'
     end.

Definition NewDecoder (doc : string) : list decode_result :=
  if String.eqb doc "" then []
  else if String.eqb doc service_text then [DecodeValue (VMap (Some service))]
  else if String.eqb doc service_in_prod_text
  then [DecodeValue (VMap (Some service_in_prod))]
  else if String.eqb doc two_mappings_and_a_sequence
  then [DecodeValue (VMap (Some {["foo" := VString "bar"]}));
        DecodeValue (VMap (Some {["baz" := VString "zoo"]}));
        DecodeValue (VSlice [VString "a"; VString "b"])]
  else if String.eqb doc broken_text
  then [DecodeValue (VMap (Some service));
        DecodeError (Errorf "yaml: line 3: did not find expected node content")]
  else [DecodeValue (VString doc)].

Definition Unmarshal_map (entry : string) : option error :=
  if nonempty (TrimSpace entry) && negb (has_infix ": " entry)
  then Some (Errorf "yaml: unmarshal errors: cannot unmarshal !!str into map[string]interface {}")
  else None.

Definition field (indent key : string) (v : option value) : option string :=
  match v with
  | None => Some ""
  | Some (VString s) => Some (indent +:+ key +:+ ": " +:+ s +:+ nl)
  | Some _ => None
  end.

Definition Marshal (v : value) : string * option error :=
  let unsupported := ("", Some (Errorf "cannot marshal")) in
  match v with
  | VMap (Some entries) =>
      let metadata :=
        match entries !! "metadata" with
        | None => Some ""
        | Some (VMap (Some metadata)) =>
            match field "    " "namespace" (metadata !! "namespace") with
            | Some text => Some ("metadata:" +:+ nl +:+ text)
            | None => None
            end
        | Some _ => None
        end in
      match field "" "kind" (entries !! "kind"), metadata with
      | Some kind, Some metadata => (kind +:+ metadata, None)
      | _, _ => unsupported
      end
  | _ => unsupported
  end.

Definition yaml : YamlLib :=
  {| yaml_NewDecoder := NewDecoder;
     yaml_Unmarshal_map := Unmarshal_map;
     yaml_Marshal := Marshal |}.

Definition charts_url : string := "https://charts.example.com".


Definition options : TemplateOptions :=
  {| Release := "web"; Chart := "nginx"; Repo := charts_url; Version := "1.2.3";
     Namespace := "prod"; Values := ["values.yaml"]; Set_ := ["replicas=2"] |}.

End Sample.

(* ===================================================================== *)
(** ** Further definitions *)
(* ===================================================================== *)

(** The value has the dynamic type [map[string]interface{}]. *)
Definition is_map (v : value) : Prop :=
  match v with VMap _ => True | _ => False end.

(** Stores for the sample manifests. *)
Module SampleStore.

Definition with_service : store := {[1%positive := Sample.service]}.

Definition with_service_in_prod : store := {[1%positive := Sample.service_in_prod]}.

End SampleStore.

(** A second sample YAML library: the first one, with streams that hold a
    null document. *)
Module SampleNull.

Definition marker_only : string := "---".

Definition service_then_null : string :=
  "kind: Service" +:+ nl +:+ "---" +:+ nl.

Definition NewDecoder (doc : string) : list decode_result :=
  if String.eqb doc marker_only then [DecodeValue VNil]
  else if String.eqb doc service_then_null
  then [DecodeValue (VMap (Some Sample.service)); DecodeValue VNil]
  else Sample.NewDecoder doc.

Definition yaml : YamlLib :=
  {| yaml_NewDecoder := NewDecoder;
     yaml_Unmarshal_map := Sample.Unmarshal_map;
     yaml_Marshal := Sample.Marshal |}.

End SampleNull.

(** Further sample helm environments: a repository lookup that fails, and
    helm runs that fail or write to the error stream. *)
Module SampleHelm.

Definition lookup_error : error := Errorf "helm repo list: exit status 1".

Definition failing_lookup : HelmEnv :=
  {| FindRepoNameByURL := λ _, ("", Some lookup_error);
     path_Join := λ dir name, dir +:+ "/" +:+ name;
     exec_helm := λ _, {| run_error := None; run_stdout := ""; run_stderr := "" |} |}.

Definition warning_on_stderr : HelmEnv :=
  {| FindRepoNameByURL := λ _, ("", None);
     path_Join := λ dir name, dir +:+ "/" +:+ name;
     exec_helm := λ _, {| run_error := None; run_stdout := "kind: Service";
                          run_stderr := "WARNING: deprecated" |} |}.

Definition quiet : HelmEnv :=
  {| FindRepoNameByURL := λ _, ("", None);
     path_Join := λ dir name, dir +:+ "/" +:+ name;
     exec_helm := λ _, {| run_error := None; run_stdout := "kind: Service";
                          run_stderr := "" |} |}.

Definition local_chart : TemplateOptions :=
  {| Release := "web"; Chart := "charts/nginx"; Repo := ""; Version := "";
     Namespace := ""; Values := []; Set_ := ["a=b"; "c=d"] |}.

End SampleHelm.

(* ===================================================================== *)
(** ** strings.ToLower and filepath.Ext *)
(* ===================================================================== *)

(** [strings.ToLower] has a path of its own for texts of ASCII bytes, which
    is modelled in full; on any other text it is
    [strings.Map(unicode.ToLower, s)], a collaborator. *)
Class GoUnicode : Type := {
  Map_unicode_ToLower : string -> string
}.

Definition is_ascii_byte (c : ascii) : bool := Nat.ltb (nat_of_ascii c) 128.

Definition is_ascii (s : string) : bool :=
  forallb is_ascii_byte (list_ascii_of_string s).

(** ['A' <= c && c <= 'Z'] gives [c + 'a' - 'A']. *)
Definition lower_byte (c : ascii) : ascii :=
  let n := nat_of_ascii c in
  if Nat.leb 65 n && Nat.leb n 90 then ascii_of_nat (n + 32) else c.

Fixpoint lower_bytes (s : string) : string :=
  match s with
  | EmptyString => EmptyString
  | String c s' => String (lower_byte c) (lower_bytes s')
  end.

Definition ToLower `{GoUnicode} (s : string) : string :=
  if is_ascii s then lower_bytes s else Map_unicode_ToLower s.

(** [strings.HasPrefix(s, prefix)] *)
Definition HasPrefix (s prefix : string) : bool := String.prefix prefix s.

(** The scan of [filepath.Ext] from the end of the path: [back] is the path
    read backwards, [suffix] what was stepped over. *)
Fixpoint Ext_scan (is_separator : ascii -> bool) (back : list ascii)
    (suffix : list ascii) : string :=
  match back with
  | [] => ""
  | c :: back' =>
      if is_separator c then ""
      else if Ascii.eqb c "." then string_of_list_ascii (c :: suffix)
      else Ext_scan is_separator back' (c :: suffix)
  end.

(* ===================================================================== *)
(** ** Package helm: TemplateWithCRDs *)
(* ===================================================================== *)

(** What the function reads of an [fs.FileInfo]. *)
Record FileInfo : Type := {
  Name : string;
  IsDir : bool
}.

(** One call of [filepath.Walk] to its function: with the info of the entry
    at [path], or with the error met there. *)
Inductive walk_visit : Type :=
| Visit (path : string) (info : FileInfo)
| VisitFailed (path : string) (err : error).

(** The file system, as the function meets it. [filepath_Walk root] is the
    sequence of calls [filepath.Walk] makes to its function as long as the
    function returns nil (the function of [TemplateWithCRDs] never returns
    [filepath.SkipDir], so the sequence does not depend on it). *)
Class FsEnv : Type := {
  os_MkdirTemp : string -> string -> string * option error;
  filepath_Join : string -> string -> string;
  os_IsPathSeparator : ascii -> bool;
  os_Stat : string -> FileInfo + error;
  errors_Is_ErrNotExist : error -> bool;
  filepath_Walk : string -> list walk_visit;
  os_ReadFile : string -> string * option error
}.

(** [filepath.Ext(path)] *)
Definition filepath_Ext `{FsEnv} (path : string) : string :=
  Ext_scan os_IsPathSeparator (rev (list_ascii_of_string path)) [].

(** The errors [TemplateWithCRDs] builds. *)
Inductive crds_error : Type :=
| ErrCreatingTempDir (chart version repo : string) (cause : error)
    (* `creating temporary directory to pull helm chart %s@%s from %s: %w` *)
| ErrPulling (chart version repo : string) (cause : error)
    (* `pulling helm chart %s@%s from %s: %w` *)
| ErrWalkingPath (path : string) (cause : error)
    (* `walking path %s: %w` *)
| ErrReadingCRDFile (path : string) (cause : error)
    (* "reading CRD file %s: %w" *)
| ErrWalkingCRDPath (crdPath : string) (cause : crds_error)
    (* `walking CRD path %s: %w` *)
| ErrReadingCRDDirectory (crdPath : string) (cause : error)
    (* `reading helm chart CRD directory %s: %w` *)
| ErrTemplating (chart : string) (cause : error)
    (* `templating helm chart at %s: %w` *)
| ErrParsingTemplate (cause : error)
    (* `parsing output of "helm template": %w` *).

(** The function handed to [filepath.Walk]: the CRD texts after the call
    and the error it returns. *)
Definition walk_crd `{FsEnv} `{GoUnicode} (crds : list string) (visit : walk_visit)
    : list string * option crds_error :=
  match visit with
  | VisitFailed path err => (crds, Some (ErrWalkingPath path err))
  | Visit path info =>
      let extension := ToLower (filepath_Ext (Name info)) in
      (* track all yaml files *)
      if negb (IsDir info) && String.eqb extension ".yaml" then
        match os_ReadFile path with
        | (_, Some err) => (crds, Some (ErrReadingCRDFile path err))
        | (crd, None) => (crds ++ [crd], None)
        end
      else (crds, None)
  end.

(** [filepath.Walk] with that function: it stops at the first error the
    function returns and returns it. *)
Fixpoint Walk_crds `{FsEnv} `{GoUnicode} (visits : list walk_visit)
    (crds : list string) : list string * option crds_error :=
  match visits with
  | [] => (crds, None)
  | visit :: visits' =>
      match walk_crd crds visit with
      | (crds', Some err) => (crds', Some err)
      | (crds', None) => Walk_crds visits' crds'
      end
  end.

(** [templateOpts]: the options with the repository zeroed and the chart set
    to the chart path. *)
Definition templateOpts (opts : TemplateOptions) (chartPath : string)
    : TemplateOptions :=
  {| Release := Release opts; Chart := chartPath; Repo := "";
     Version := Version opts; Namespace := Namespace opts;
     Values := Values opts; Set_ := Set_ opts |}.

(** The last loop of the function: the maps that are not nil. *)
Definition noNils_step (noNils : list gomap) (m : gomap) : list gomap :=
  match m with
  | Some _ => noNils ++ [m]
  | None => noNils
  end.

(** [TemplateWithCRDs(opts)]. The deferred [os.RemoveAll(tmpDir)] acts on
    the file system after the result is computed and is not part of the
    result. *)
Definition TemplateWithCRDs `{HelmEnv} `{FsEnv} `{GoUnicode} `{YamlLib}
    (opts : TemplateOptions) : list gomap * option crds_error :=
  (* interpret the chart path based on if a repo-url was provided *)
  let chart_step : string + crds_error :=
    if nonempty (Repo opts) then
      match os_MkdirTemp "" "fabrikate" with
      | (_, Some err) =>
          inr (ErrCreatingTempDir (Chart opts) (Version opts) (Repo opts) err)
      | (tmpDir, None) =>
          match Pull (Repo opts) (Chart opts) (Version opts) tmpDir with
          | Some err => inr (ErrPulling (Chart opts) (Version opts) (Repo opts) err)
          | None => inl (filepath_Join tmpDir (Chart opts))
          end
      end
    else inl (Chart opts) in
  match chart_step with
  | inr err => ([], Some err)
  | inl chartPath =>
      let crdPath := filepath_Join chartPath "crds" in
      (* walk the "crds" dir to collect all the yaml strings *)
      let crds_step : list string * option crds_error :=
        match os_Stat crdPath with
        | inl info =>
            if IsDir info then
              match Walk_crds (filepath_Walk crdPath) [] with
              | (crds, Some err) => (crds, Some (ErrWalkingCRDPath crdPath err))
              | (crds, None) => (crds, None)
              end
            else ([], None)
        | inr err =>
            if negb (errors_Is_ErrNotExist err)
            then ([], Some (ErrReadingCRDDirectory crdPath err))
            else ([], None)
        end in
      match crds_step with
      | (_, Some err) => ([], Some err)
      | (crds, None) =>
          (* run `helm template` to get the contents of the pulled chart *)
          match Template (templateOpts opts chartPath) with
          | (_, Some err) => ([], Some (ErrTemplating chartPath err))
          | (template, None) =>
              (* join all the yaml together with "---" *)
              let allYAMLEntries := crds ++ [template] in
              let unifiedYAMLString :=
                TrimSpace (Join allYAMLEntries (nl +:+ "---" +:+ nl)) in
              (* convert to maps and remove all nils *)
              match DecodeMaps unifiedYAMLString with
              | (_, Some err) => ([], Some (ErrParsingTemplate err))
              | (maps, None) => (fold_left noNils_step maps [], None)
              end
          end
      end
  end.

(** A walked entry whose text is collected: a file, not a directory, whose
    name has the extension [.yaml] in any mix of cases. *)
Definition is_crd_file `{FsEnv} `{GoUnicode} (info : FileInfo) : bool :=
  negb (IsDir info) && String.eqb (ToLower (filepath_Ext (Name info))) ".yaml".

(** The texts of the collected files of a walk, in walk order. *)
Definition crd_texts `{FsEnv} `{GoUnicode} (visits : list walk_visit) : list string :=
  flat_map (λ visit,
              match visit with
              | Visit path info =>
                  if is_crd_file info then [fst (os_ReadFile path)] else []
              | VisitFailed _ _ => []
              end) visits.

(** A visit that lets the walk go on: an entry, readable if it is collected. *)
Definition visit_passes `{FsEnv} `{GoUnicode} (visit : walk_visit) : Prop :=
  match visit with
  | Visit path info => is_crd_file info = true → snd (os_ReadFile path) = None
  | VisitFailed _ _ => False
  end.

Definition not_nil (m : gomap) : bool :=
  match m with Some _ => true | None => false end.

(** What [TemplateWithCRDs] makes of the text it has put together. *)
Definition decoded_manifests `{YamlLib} (unifiedYAMLString : string)
    : list gomap * option crds_error :=
  match DecodeMaps unifiedYAMLString with
  | (_, Some err) => ([], Some (ErrParsingTemplate err))
  | (maps, None) => (List.filter not_nil maps, None)
  end.

(** Sample file system, helm and YAML library for a local chart with a
    [crds] directory. *)
Module SampleChart.

Definition crds_dir : string := "charts/nginx/crds".

Definition crd_text : string := "kind: CustomResourceDefinition".

Definition crd : gmap string value :=
  {["kind" := VString "CustomResourceDefinition"]}.

Definition visits : list walk_visit :=
  [ Visit "charts/nginx/crds" {| Name := "crds"; IsDir := true |};
    Visit "charts/nginx/crds/BAR.YAML" {| Name := "BAR.YAML"; IsDir := false |};
    Visit "charts/nginx/crds/README.md" {| Name := "README.md"; IsDir := false |};
    Visit "charts/nginx/crds/foo.yaml" {| Name := "foo.yaml"; IsDir := false |};
    Visit "charts/nginx/crds/notes.yml" {| Name := "notes.yml"; IsDir := false |} ].

Definition not_found : error := Errorf "no such file or directory".

Definition fs : FsEnv :=
  {| os_MkdirTemp := λ _ pattern, ("/tmp/" +:+ pattern +:+ "123", None);
     filepath_Join := λ dir name, dir +:+ "/" +:+ name;
     os_IsPathSeparator := Ascii.eqb "/";
     os_Stat := λ path,
       if String.eqb path crds_dir then inl {| Name := "crds"; IsDir := true |}
       else inr not_found;
     errors_Is_ErrNotExist := λ _, true;
     filepath_Walk := λ root, if String.eqb root crds_dir then visits else [];
     os_ReadFile := λ _, (crd_text, None) |}.

Definition unicode : GoUnicode := {| Map_unicode_ToLower := λ s, s |}.

Definition template_text : string := "---" +:+ nl +:+ "kind: Service".

Definition helm : HelmEnv :=
  {| FindRepoNameByURL := λ _, ("", None);
     path_Join := λ dir name, dir +:+ "/" +:+ name;
     exec_helm := λ _, {| run_error := None; run_stdout := template_text;
                          run_stderr := "" |} |}.

Definition unified_text : string :=
  crd_text +:+ nl +:+ "---" +:+ nl +:+ crd_text +:+ nl +:+ "---" +:+ nl
  +:+ template_text.

Definition NewDecoder (doc : string) : list decode_result :=
  if String.eqb doc unified_text
  then [DecodeValue (VMap (Some crd)); DecodeValue (VMap (Some crd));
        DecodeValue VNil; DecodeValue (VMap (Some Sample.service))]
  else if String.eqb doc template_text
  then [DecodeValue VNil; DecodeValue (VMap (Some Sample.service))]
  else Sample.NewDecoder doc.

Definition yaml : YamlLib :=
  {| yaml_NewDecoder := NewDecoder;
     yaml_Unmarshal_map := Sample.Unmarshal_map;
     yaml_Marshal := Sample.Marshal |}.

Definition options : TemplateOptions :=
  {| Release := "web"; Chart := "charts/nginx"; Repo := ""; Version := "";
     Namespace := ""; Values := []; Set_ := [] |}.

Definition remote_options : TemplateOptions :=
  {| Release := "web"; Chart := "nginx"; Repo := "https://charts.example.com";
     Version := "1.2.3"; Namespace := "prod"; Values := []; Set_ := [] |}.

End SampleChart.

(** The sample file system with an unreadable entry in the directory. *)
Module SampleBrokenWalk.

Definition denied : error := Errorf "permission denied".

Definition visits : list walk_visit :=
  [ Visit "charts/nginx/crds" {| Name := "crds"; IsDir := true |};
    Visit "charts/nginx/crds/foo.yaml" {| Name := "foo.yaml"; IsDir := false |};
    VisitFailed "charts/nginx/crds/private" denied ].

Definition fs : FsEnv :=
  {| os_MkdirTemp := @os_MkdirTemp SampleChart.fs;
     filepath_Join := @filepath_Join SampleChart.fs;
     os_IsPathSeparator := @os_IsPathSeparator SampleChart.fs;
     os_Stat := @os_Stat SampleChart.fs;
     errors_Is_ErrNotExist := @errors_Is_ErrNotExist SampleChart.fs;
     filepath_Walk := λ root,
       if String.eqb root SampleChart.crds_dir then visits else [];
     os_ReadFile := @os_ReadFile SampleChart.fs |}.

End SampleBrokenWalk.

(* ===================================================================== *)
(** ** Package helm: the version of the helm client *)
(* ===================================================================== *)

(** The size in bits of the Go type [int] (32 or 64). *)
Class GoPlatform : Type := {
  intSize : Z
}.

Definition is_digit (c : ascii) : bool :=
  let n := nat_of_ascii c in Nat.leb 48 n && Nat.leb n 57.

Definition all_digits (s : string) : bool :=
  forallb is_digit (list_ascii_of_string s).

(** The number written by a string of decimal digits, most significant
    first, after the number [acc]. *)
Fixpoint digits_value (acc : Z) (s : string) : Z :=
  match s with
  | EmptyString => acc
  | String c s' =>
      digits_value (acc * 10 + (Z.of_nat (nat_of_ascii c) - 48))%Z s'
  end.

(** The two errors of [strconv.Atoi]. *)
Inductive atoi_error : Type :=
| ErrSyntax (s : string)
| ErrRange (s : string).

(** [strconv.Atoi(s)]: an optional sign, then decimal digits, in the range
    of [int]. *)
Definition Atoi `{GoPlatform} (s : string) : Z * option atoi_error :=
  let '(neg, body) :=
    match s with
    | String "-" body => (true, body)
    | String "+" body => (false, body)
    | _ => (false, s)
    end in
  if negb (nonempty body) || negb (all_digits body) then (0%Z, Some (ErrSyntax s))
  else
    let n := digits_value 0%Z body in
    let cutoff := (2 ^ (intSize - 1))%Z in
    if neg then
      if (cutoff <? n)%Z then ((- cutoff)%Z, Some (ErrRange s)) else ((- n)%Z, None)
    else
      if (cutoff <=? n)%Z then ((cutoff - 1)%Z, Some (ErrRange s)) else (n, None).

(** The longest run of decimal digits at the head of [s], and what comes
    after it. *)
Fixpoint span_digits (s : string) : string * string :=
  match s with
  | EmptyString => ("", "")
  | String c s' =>
      if is_digit c
      then let '(digits, rest) := span_digits s' in (String c digits, rest)
      else ("", s)
  end.

(** A match of [(?i)v(\d+)\.(\d+)\.(\d+)] at the head of [s]: the three
    groups. A group is a run of digits followed by a character that is not
    a digit, so the greedy match is the only one. *)
Definition semver_at (s : string) : option (string * string * string) :=
  match s with
  | String c s1 =>
      if Ascii.eqb c "v" || Ascii.eqb c "V" then
        let '(major, r1) := span_digits s1 in
        match r1 with
        | String "." s2 =>
            let '(minor, r2) := span_digits s2 in
            match r2 with
            | String "." s3 =>
                let '(fix_, _) := span_digits s3 in
                if nonempty major && nonempty minor && nonempty fix_
                then Some (major, minor, fix_)
                else None
            | _ => None
            end
        | _ => None
        end
      else None
  | EmptyString => None
  end.

(** [semVerRgx.FindStringSubmatch(s)], by its groups: the leftmost match. *)
Fixpoint find_semver (s : string) : option (string * string * string) :=
  match semver_at s with
  | Some groups => Some groups
  | None =>
      match s with
      | EmptyString => None
      | String _ s' => find_semver s'
      end
  end.

Module helm_version.

(** [BuildInfo] *)
Record BuildInfo : Type := {
  Version : string;
  GitCommit : string;
  GitTreeState : string;
  GoVersion : string
}.

(** [struct{ major, minor, fix int }] *)
Record parsed_version : Type := {
  major : Z;
  minor : Z;
  fix_ : Z
}.

(** `parsing version string %s as int: %w` *)
Inductive parse_error : Type :=
| ErrParsingVersion (value : string) (cause : atoi_error).

(** [v.parse()]: the loop over the match and its three named groups; the
    whole match, of index 0, has no name and is not converted. *)
Definition parse `{GoPlatform} (v : BuildInfo) : parsed_version * option parse_error :=
  let parsed := {| major := 0%Z; minor := 0%Z; fix_ := 0%Z |} in
  match find_semver (Version v) with
  | None => (parsed, None)
  | Some (value1, value2, value3) =>
      match Atoi value1 with
      | (_, Some err) => (parsed, Some (ErrParsingVersion value1 err))
      | (valueAsInt, None) =>
          let parsed := {| major := valueAsInt; minor := 0%Z; fix_ := 0%Z |} in
          match Atoi value2 with
          | (_, Some err) => (parsed, Some (ErrParsingVersion value2 err))
          | (valueAsInt, None) =>
              let parsed :=
                {| major := major parsed; minor := valueAsInt; fix_ := 0%Z |} in
              match Atoi value3 with
              | (_, Some err) => (parsed, Some (ErrParsingVersion value3 err))
              | (valueAsInt, None) =>
                  ({| major := major parsed; minor := minor parsed;
                      fix_ := valueAsInt |}, None)
              end
          end
      end
  end.

(** [v.IsHelm3()] and [v.IsHelm2()] *)
Definition IsHelm3 `{GoUnicode} (v : BuildInfo) : bool :=
  HasPrefix (ToLower (Version v)) "v3.".

Definition IsHelm2 `{GoUnicode} (v : BuildInfo) : bool :=
  HasPrefix (ToLower (Version v)) "v2.".

Definition of_version (version : string) : BuildInfo :=
  {| Version := version; GitCommit := ""; GitTreeState := ""; GoVersion := "" |}.

End helm_version.

Definition amd64 : GoPlatform := {| intSize := 64%Z |}.

(** What follows a group of digits is not a digit. *)
Definition group_ends (rest : string) : Prop :=
  match rest with
  | EmptyString => True
  | String c _ => is_digit c = false
  end.

(** The number a group of digits writes is in the range of [int]. *)
Definition in_range `{GoPlatform} (digits : string) : Prop :=
  (digits_value 0 digits < 2 ^ (intSize - 1))%Z.

(* ===================================================================== *)
(** ** Package installer: the helm binary inside a downloaded archive *)
(* ===================================================================== *)

(** What the functions read of a [tar.Header]. *)
Record tar_header : Type := {
  tar_Name : string;
  tar_Typeflag : ascii
}.

(** [tar.TypeReg] *)
Definition tar_TypeReg : ascii := "0"%char.

(** One call [tr.Next()] that is not [io.EOF]: an error, or a header (the
    source provides for a nil one) together with what [io.ReadAll(tr)]
    gives at that entry. *)
Inductive tar_next : Type :=
| TarFailed (err : error)
| TarEntry (header : option tar_header) (content : string * option error).

(** A file of a [zip.Reader]: its name, the error of [Open] if any, and
    what [io.ReadAll] gives on the opened file. *)
Record zip_file : Type := {
  zip_Name : string;
  zip_Open : option error;
  zip_ReadAll : string * option error
}.

(** The archive libraries and [filepath.Base]. [gzip_tar body] is the error
    of [gzip.NewReader], or the results of the successive [tr.Next()] up to
    [io.EOF]; [zip_NewReader body] is the error of [zip.NewReader] or the
    files of the archive. *)
Class ArchiveEnv : Type := {
  gzip_tar : string -> list tar_next + error;
  zip_NewReader : string -> list zip_file + error;
  filepath_Base : string -> string
}.

(** The errors of the two functions; an error of the zip library that is
    returned as it is, is [ErrFromLibrary]. *)
Inductive archive_error : Type :=
| ErrCreatingGzipReader (cause : error)
    (* `creating gzip reader: %w` *)
| ErrNoHelmInTar
    (* `no file with name "helm" found in tar.gz file` *)
| ErrParsingTar (cause : error)
    (* `parsing file in tar.gz file: %w` *)
| ErrReadingTarEntry (name : string)
    (* `reading bytes from %s in tar.gz file` *)
| ErrCreatingZipReader (cause : error)
    (* `creating zip reader: %s` *)
| ErrNoHelmInZip
    (* `no file named "helm.exe" found in zip file` *)
| ErrFromLibrary (cause : error).

(** The [for] loop of [decompressedGZippedBin]; a [[]byte] is an
    [option string], [None] being the nil slice. *)
Fixpoint decompressedGZippedBin_loop `{ArchiveEnv} (tr : list tar_next)
    : option string * option archive_error :=
  match tr with
  | [] => (None, Some ErrNoHelmInTar)
  | TarFailed err :: _ => (None, Some (ErrParsingTar err))
  | TarEntry None _ :: tr' => decompressedGZippedBin_loop tr'
  | TarEntry (Some header) content :: tr' =>
      let filename := filepath_Base (tar_Name header) in
      if String.eqb filename "helm" && Ascii.eqb (tar_Typeflag header) tar_TypeReg
      then
        match content with
        | (_, Some _) => (None, Some (ErrReadingTarEntry (tar_Name header)))
        | (helmBytes, None) => (Some helmBytes, None)
        end
      else decompressedGZippedBin_loop tr'
  end.

Definition decompressedGZippedBin `{ArchiveEnv} (body : string)
    : option string * option archive_error :=
  match gzip_tar body with
  | inr err => (None, Some (ErrCreatingGzipReader err))
  | inl tr => decompressedGZippedBin_loop tr
  end.

(** The [range] loop of [decompressZippedBin]. *)
Fixpoint decompressZippedBin_loop `{ArchiveEnv} (files : list zip_file)
    : option string * option archive_error :=
  match files with
  | [] => (None, Some ErrNoHelmInZip)
  | zipFile :: files' =>
      let filename := filepath_Base (zip_Name zipFile) in
      if String.eqb filename "helm.exe" then
        match zip_Open zipFile with
        | Some err => (None, Some (ErrFromLibrary err))
        | None =>
            match zip_ReadAll zipFile with
            | (_, Some err) => (None, Some (ErrFromLibrary err))
            | (helmBytes, None) => (Some helmBytes, None)
            end
        end
      else decompressZippedBin_loop files'
  end.

Definition decompressZippedBin `{ArchiveEnv} (body : string)
    : option string * option archive_error :=
  match zip_NewReader body with
  | inr err => (None, Some (ErrCreatingZipReader err))
  | inl files => decompressZippedBin_loop files
  end.

(** The entry the tar loop stops at: a regular file whose base name is
    [helm]. *)
Definition is_helm_binary `{ArchiveEnv} (next : tar_next) : bool :=
  match next with
  | TarEntry (Some header) _ =>
      String.eqb (filepath_Base (tar_Name header)) "helm"
      && Ascii.eqb (tar_Typeflag header) tar_TypeReg
  | _ => false
  end.

(** An entry the tar loop steps over: not an error, and not that file. *)
Definition is_stepped_over `{ArchiveEnv} (next : tar_next) : bool :=
  match next with
  | TarFailed _ => false
  | TarEntry _ _ => negb (is_helm_binary next)
  end.

Definition is_helm_exe `{ArchiveEnv} (zipFile : zip_file) : bool :=
  String.eqb (filepath_Base (zip_Name zipFile)) "helm.exe".

(** A sample archive library: a release archive of helm for linux. *)
Module SampleArchive.

Definition release : list tar_next :=
  [ TarEntry (Some {| tar_Name := "linux-amd64/"; tar_Typeflag := "5" |}) ("", None);
    TarEntry (Some {| tar_Name := "linux-amd64/helm/"; tar_Typeflag := "5" |}) ("", None);
    TarEntry (Some {| tar_Name := "linux-amd64/LICENSE"; tar_Typeflag := "0" |})
             ("Apache License", None);
    TarEntry (Some {| tar_Name := "linux-amd64/helm"; tar_Typeflag := "0" |})
             ("ELF helm", None);
    TarEntry (Some {| tar_Name := "linux-amd64/extra/helm"; tar_Typeflag := "0" |})
             ("ELF other", None) ].

Definition windows_release : list zip_file :=
  [ {| zip_Name := "windows-amd64/LICENSE"; zip_Open := None;
       zip_ReadAll := ("Apache License", None) |};
    {| zip_Name := "windows-amd64/helm.exe"; zip_Open := None;
       zip_ReadAll := ("MZ helm", None) |} ].

(** The last element of a slash-separated path, trailing slashes removed. *)
Fixpoint base_scan (chars : list ascii) (cur last : string) : string :=
  match chars with
  | [] => if nonempty cur then cur else last
  | c :: chars' =>
      if Ascii.eqb c "/"
      then base_scan chars' "" (if nonempty cur then cur else last)
      else base_scan chars' (cur +:+ String c "") last
  end.

Definition env : ArchiveEnv :=
  {| gzip_tar := λ _, inl release;
     zip_NewReader := λ _, inl windows_release;
     filepath_Base := λ path, base_scan (list_ascii_of_string path) "" "" |}.

End SampleArchive.

(** A sample YAML library for the text [a: -0.0], after yaml.v3: the
    scalar [-0.0] decodes to the float64 negative zero, which the encoder
    writes [-0] ([strconv.FormatFloat] with format [g]); read again, [-0]
    is the integer zero, which the encoder writes [0]. [VOther "float64"]
    is that negative zero, the one float64 of this library. *)
Module SampleNegativeZero.

Definition input : string := "a: -0.0".

Definition first_output : string :=
  "a: -0" +:+ nl +:+ "metadata:" +:+ nl +:+ "    namespace: prod" +:+ nl.

Definition second_output : string :=
  "a: 0" +:+ nl +:+ "metadata:" +:+ nl +:+ "    namespace: prod" +:+ nl.

Definition in_prod : value := VMap (Some {["namespace" := VString "prod"]}).

Definition NewDecoder (doc : string) : list decode_result :=
  if String.eqb doc input
  then [DecodeValue (VMap (Some {["a" := VOther "float64"]}))]
  else if String.eqb doc first_output
  then [DecodeValue (VMap (Some (<["metadata" := in_prod]> {["a" := VInt 0]})))]
  else if String.eqb doc second_output
  then [DecodeValue (VMap (Some (<["metadata" := in_prod]> {["a" := VInt 0]})))]
  else Sample.NewDecoder doc.

Definition number (v : option value) : option string :=
  match v with
  | Some (VOther "float64") => Some "-0"
  | Some (VInt 0) => Some "0"
  | _ => None
  end.

Definition Marshal (v : value) : string * option error :=
  let unsupported := ("", Some (Errorf "cannot marshal")) in
  match v with
  | VMap (Some entries) =>
      match number (entries !! "a"), entries !! "metadata" with
      | Some a, Some (VMap (Some metadata)) =>
          match Sample.field "    " "namespace" (metadata !! "namespace") with
          | Some namespace =>
              ("a: " +:+ a +:+ nl +:+ "metadata:" +:+ nl +:+ namespace, None)
          | None => unsupported
          end
      | _, _ => unsupported
      end
  | _ => unsupported
  end.

Definition yaml : YamlLib :=
  {| yaml_NewDecoder := NewDecoder;
     yaml_Unmarshal_map := Sample.Unmarshal_map;
     yaml_Marshal := Marshal |}.

End SampleNegativeZero.

(* ===================================================================== *)
(** ** The string functions on small inputs *)
(* ===================================================================== *)

Example Split_on_marker :
  Split ("a" +:+ nl +:+ "---" +:+ nl +:+ "b" +:+ nl +:+ "---") (nl +:+ "---")
  = ["a"; nl +:+ "b"; ""].
Proof. reflexivity. Qed.

Example Split_without_marker : Split "" (nl +:+ "---") = [""].
Proof. reflexivity. Qed.

Example Split_does_not_overlap : Split "aaa" "aa" = [""; "a"].
Proof. reflexivity. Qed.

Example Join_two : Join ["a"; "b"] (nl +:+ "---") = "a" +:+ nl +:+ "---b".
Proof. reflexivity. Qed.

Example TrimSpace_both_ends : TrimSpace (nl +:+ "  foo: bar " +:+ nl) = "foo: bar".
Proof. reflexivity. Qed.

Example TrimSpace_unicode : TrimSpace (of_bytes [194; 160; 120; 226; 128; 168]) = "x".
Proof. reflexivity. Qed.

Example TrimSpace_blank : TrimSpace (nl +:+ "   ") = "".
Proof. reflexivity. Qed.

(* ===================================================================== *)
(** ** Properties of Decode and DecodeMaps *)
(* ===================================================================== *)

Section DecodeProperties.
Context `{YamlLib}.

Lemma Decode_loop_values (doc : string) (vs : list value)
    (decoder : list decode_result) (values : list value) :
  Decode_loop doc ((DecodeValue <$> vs) ++ decoder) values
  = Decode_loop doc decoder (values ++ vs).
Proof.
  revert values. induction vs as [|v vs IH]; intros values; simpl.
  - by rewrite app_nil_r.
  - rewrite IH. by rewrite <- app_assoc.
Qed.

(** Whatever the decoder does, an error comes with no values. *)
Lemma Decode_loop_all_or_nothing (doc : string) (decoder : list decode_result)
    (values values' : list value) (err : error) :
  Decode_loop doc decoder values = (values', Some err) → values' = [].
Proof.
  revert values. induction decoder as [|[v|e] decoder IH]; intros values; simpl.
  - discriminate.
  - apply IH.
  - by intros [= <- _].
Qed.

Lemma Decode_loop_error (doc : string) (decoder : list decode_result)
    (values : list value) (e : error) :
  DecodeError e ∈ decoder →
  Decode_loop doc decoder values
  = ([], Some (Errorf ("decoding yaml in yaml document " +:+ doc))).
Proof.
  revert values. induction decoder as [|[v|e'] decoder IH]; intros values Hin.
  - by apply elem_of_nil in Hin.
  - apply elem_of_cons in Hin as [Hin|Hin]; [discriminate|]. simpl. by apply IH.
  - reflexivity.
Qed.

(** C5. When the decoder meets a document it cannot parse, wherever in the
    input, [Decode] returns no values at all and an error whose message
    carries the whole raw input. *)
Theorem Decode_invalid_document (doc : string) (e : error) :
  DecodeError e ∈ yaml_NewDecoder doc →
  Decode doc = ([], Some (Errorf ("decoding yaml in yaml document " +:+ doc))).
Proof. intros Hin. unfold Decode. by eapply Decode_loop_error. Qed.

(** All or nothing: an error of [Decode] comes with no values, and without
    an error every document of the decoder is returned, in order. *)
Lemma Decode_all_or_nothing (doc : string) (values : list value) (err : error) :
  Decode doc = (values, Some err) → values = [].
Proof. apply Decode_loop_all_or_nothing. Qed.

Lemma Decode_values (doc : string) (values : list value) :
  yaml_NewDecoder doc = DecodeValue <$> values → Decode doc = (values, None).
Proof.
  intros Hdec. unfold Decode.
  rewrite Hdec, <- (app_nil_r (DecodeValue <$> values)), Decode_loop_values.
  done.
Qed.

(** C6. On the empty input the decoder is at end of stream at once, and
    [Decode] returns the empty sequence and no error. *)
Theorem Decode_empty_input :
  yaml_NewDecoder "" = [] → Decode "" = ([], None).
Proof. intros Hdec. unfold Decode. by rewrite Hdec. Qed.

Lemma DecodeMaps_loop_accepts (values : list value) (maps : list gomap) :
  Forall null_or_mapping values →
  DecodeMaps_loop values maps = (maps ++ (contribution <$> values), None).
Proof.
  intros Hall. revert maps.
  induction Hall as [|v values Hv _ IH]; intros maps; simpl.
  - by rewrite app_nil_r.
  - destruct v; try done; rewrite IH, <- app_assoc; done.
Qed.

Lemma DecodeMaps_loop_rejects (values : list value) (maps : list gomap) :
  Exists (λ v, ¬ null_or_mapping v) values →
  ∃ v, v ∈ values ∧ ¬ null_or_mapping v
       ∧ DecodeMaps_loop values maps = ([], Some (ErrReflectValue v)).
Proof.
  intros Hex. revert maps.
  induction values as [|v values IH]; intros maps.
  - by apply Exists_nil in Hex.
  - destruct (decide (null_or_mapping v)) as [Hv|Hv].
    + apply Exists_cons in Hex as [Hex|Hex]; [done|].
      destruct (IH Hex (maps ++ [contribution v])) as (w & Hin & Hw & Heq).
      exists w. split_and!; [by right | done |].
      destruct v; try done; simpl in *; exact Heq.
    + exists v. split_and!; [by left | done |].
      destruct v; simpl in *; try done; by destruct Hv.
Qed.

(** C1. On an input that decodes without error, [DecodeMaps] returns one
    entry per decoded document when all of them are null or mappings: the
    nil map at the position of a null document, the mapping itself at the
    position of a mapping. When some document is of another shape (a
    scalar or a sequence), it returns no entries and an error on that
    document. *)
Theorem DecodeMaps_projection (doc : string) (values : list value) :
  Decode doc = (values, None) →
  (Forall null_or_mapping values →
     ∃ maps, DecodeMaps doc = (maps, None)
       ∧ length maps = length values
       ∧ (∀ i, values !! i = Some VNil → maps !! i = Some None)
       ∧ (∀ i m, values !! i = Some (VMap m) → maps !! i = Some m))
  ∧ (Exists (λ v, ¬ null_or_mapping v) values →
     ∃ v, v ∈ values ∧ ¬ null_or_mapping v
       ∧ DecodeMaps doc = ([], Some (ErrReflectValue v))).
Proof.
  intros Hdec. unfold DecodeMaps. rewrite Hdec. split.
  - intros Hall. exists (contribution <$> values).
    rewrite DecodeMaps_loop_accepts by done. simpl.
    split_and!; [done | by rewrite length_fmap | |].
    + intros i Hi. by rewrite list_lookup_fmap, Hi.
    + intros i m Hi. by rewrite list_lookup_fmap, Hi.
  - apply DecodeMaps_loop_rejects.
Qed.

End DecodeProperties.

(* ===================================================================== *)
(** ** Properties of injectNamespace *)
(* ===================================================================== *)

Section InjectNamespaceProperties.
Implicit Types (σ : store) (l : loc) (entries metadata : gmap string value).

(** A call that returns an error has not written to the store, and
    returns the nil map. *)
Lemma injectNamespace_error_leaves_store σ (manifest : option loc)
    (namespace : string) σ' (ret : option loc) (err : error) :
  injectNamespace σ manifest namespace = Returns (σ', (ret, Some err)) →
  σ' = σ ∧ ret = None.
Proof.
  unfold injectNamespace.
  destruct manifest as [l|]; [|done].
  destruct (σ !! l) as [entries|] eqn:Hl; [|done].
  unfold map_has. destruct (entries !! "metadata") as [v|] eqn:Hmeta.
  - rewrite bool_decide_eq_true_2 by eauto. rewrite Hl. simpl. rewrite Hmeta. simpl.
    destruct v as [| | | | |metadata|]; try by intros [= <- <- _].
    destruct (is_nil (map_index metadata "namespace")); simpl.
    + destruct metadata; simpl; [|done]. done.
    + by intros [= <- <- _].
  - rewrite bool_decide_eq_false_2 by (intros [? ?]; done).
    rewrite lookup_insert_eq. simpl. rewrite lookup_insert_eq. simpl.
    rewrite lookup_empty. simpl. done.
Qed.

(** C2. A manifest whose metadata mapping holds a namespace other than nil
    makes [injectNamespace] return an error, for every namespace string;
    nothing is overwritten: the store, hence the metadata mapping and its
    namespace entry, is the one the call started from. *)
Theorem injectNamespace_existing_namespace σ l entries metadata (v : value)
    (namespace : string) :
  σ !! l = Some entries →
  entries !! "metadata" = Some (VMap (Some metadata)) →
  metadata !! "namespace" = Some v →
  v ≠ VNil →
  injectNamespace σ (Some l) namespace
  = Returns (σ, (None, Some (ErrExistingNamespace (Some entries)))).
Proof.
  intros Hl Hmeta Hns Hv. unfold injectNamespace, map_has.
  rewrite Hl, bool_decide_eq_true_2 by eauto.
  rewrite Hl. simpl. rewrite Hmeta. simpl. rewrite Hns. simpl.
  destruct v; done.
Qed.

(** C4. On the nil manifest [injectNamespace] returns nil and no error and
    leaves the store alone. On a manifest without a metadata key it stores
    a new mapping under that key, which holds the namespace and nothing
    else, and returns the reference it was given, with no error. *)
Theorem injectNamespace_nil_and_no_metadata σ l entries (namespace : string) :
  σ !! l = Some entries →
  entries !! "metadata" = None →
  injectNamespace σ None namespace = Returns (σ, (None, None))
  ∧ injectNamespace σ (Some l) namespace
    = Returns (<[l := <["metadata" :=
                         VMap (Some (<["namespace" := VString namespace]> ∅))]>
                       entries]> σ,
               (Some l, None)).
Proof.
  intros Hl Hmeta. split; [done|]. unfold injectNamespace, map_has.
  rewrite Hl, bool_decide_eq_false_2 by (rewrite Hmeta; intros [? ?]; done).
  rewrite lookup_insert_eq. simpl. rewrite lookup_insert_eq. simpl.
  rewrite lookup_empty. simpl.
  f_equal. f_equal.
  rewrite alter_insert_eq. rewrite insert_insert_eq. reflexivity.
Qed.

End InjectNamespaceProperties.

(* ===================================================================== *)
(** ** Properties of injectNamespaceBack *)
(* ===================================================================== *)

Section InjectNamespaceBackProperties.
Context `{YamlLib}.
Implicit Types (entries metadata : gmap string value) (manifest : gomap).

Lemma injectNamespaceBack_loop_run (namespace : string) (manifests : list gomap)
    (texts withInjectedNS : list string) :
  Forall2 (turn namespace) manifests texts →
  injectNamespaceBack_loop manifests namespace withInjectedNS
  = Returns (Join (withInjectedNS ++ texts) (nl +:+ "---" +:+ nl), None).
Proof.
  intros Hturns. revert withInjectedNS.
  induction Hturns as [|manifest text manifests texts (m' & Hentry & Hm) _ IH];
    intros acc; simpl.
  - by rewrite app_nil_r.
  - rewrite Hentry, Hm, IH, <- app_assoc. done.
Qed.

Lemma injectNamespaceBack_loop_success (namespace : string) (manifests : list gomap)
    (withInjectedNS : list string) (out : string) :
  injectNamespaceBack_loop manifests namespace withInjectedNS = Returns (out, None) →
  ∃ texts, Forall2 (turn namespace) manifests texts
           ∧ out = Join (withInjectedNS ++ texts) (nl +:+ "---" +:+ nl).
Proof.
  revert withInjectedNS.
  induction manifests as [|manifest manifests IH]; intros acc; simpl.
  - intros [= <-]. exists []. by rewrite app_nil_r.
  - destruct (injectNamespaceBack_entry manifest namespace)
      as [[manifest' [err|]]|] eqn:Hentry; try done.
    destruct (yaml_Marshal (VMap manifest')) as [text [err|]] eqn:Hm; try done.
    intros Hloop. destruct (IH _ Hloop) as (texts & Hturns & ->).
    exists (text :: texts). split.
    + constructor; [by exists manifest' | done].
    + by rewrite <- app_assoc.
Qed.

(** A null document has no map to write to: its turn ends in a panic. *)
Remark injectNamespaceBack_entry_null_document (namespace : string) :
  injectNamespaceBack_entry None namespace = Panics "assignment to entry in nil map".
Proof. reflexivity. Qed.

(** On a Manifest the entry step is the backfill. *)
Lemma injectNamespaceBack_entry_backfill (namespace : string) entries :
  Manifest entries →
  injectNamespaceBack_entry (Some entries) namespace
  = Returns (Some (backfill namespace entries), None).
Proof.
  unfold Manifest, injectNamespaceBack_entry, backfill, lacks_namespace,
    with_namespace, carried_namespace. simpl.
  destruct (entries !! "metadata") as [[| | | | |[metadata|]|]|]; simpl; try done.
  intros _. by destruct (_ || _).
Qed.

(** A manifest that carries the supplied namespace goes through the entry
    step as it is. *)
Lemma injectNamespaceBack_entry_carrying (namespace : string) entries metadata :
  entries !! "metadata" = Some (VMap (Some metadata)) →
  metadata !! "namespace" = Some (VString namespace) →
  injectNamespaceBack_entry (Some entries) namespace = Returns (Some entries, None).
Proof.
  intros Hmeta Hns. unfold injectNamespaceBack_entry. simpl.
  rewrite Hmeta. simpl. rewrite Hns. simpl.
  destruct (String.eqb namespace ""); [|done].
  by rewrite (insert_id metadata), (insert_id entries).
Qed.

(** What the entry step has produced, it leaves as it is. *)
Lemma injectNamespaceBack_entry_idempotent (namespace : string) manifest manifest' :
  injectNamespaceBack_entry manifest namespace = Returns (manifest', None) →
  injectNamespaceBack_entry manifest' namespace = Returns (manifest', None).
Proof.
  intros Hentry. generalize Hentry. unfold injectNamespaceBack_entry at 1.
  destruct manifest as [entries|]; simpl; [|done].
  destruct (entries !! "metadata") as [[| | | | |metadata|]|] eqn:Hmeta;
    simpl; try done.
  - intros [= <-].
    eapply injectNamespaceBack_entry_carrying; apply lookup_insert_eq.
  - destruct (is_nil (map_index metadata "namespace")
              || is_string "" (map_index metadata "namespace")) eqn:Hcond.
    + destruct metadata as [metadata|]; simpl; [|done].
      intros [= <-].
      eapply injectNamespaceBack_entry_carrying; apply lookup_insert_eq.
    + by intros [= <-].
  - intros [= <-].
    eapply injectNamespaceBack_entry_carrying; apply lookup_insert_eq.
Qed.



Lemma backfill_characterised (namespace : string) entries :
  if lacks_namespace entries
  then carried_namespace (backfill namespace entries) = VString namespace
       ∧ ∀ k, k ≠ "metadata" → backfill namespace entries !! k = entries !! k
  else backfill namespace entries = entries.
Proof.
  unfold backfill. destruct (lacks_namespace entries); [|done].
  unfold with_namespace, carried_namespace. split.
  - rewrite lookup_insert_eq. simpl. by rewrite lookup_insert_eq.
  - intros k Hk. by rewrite lookup_insert_ne.
Qed.

Lemma Manifest_turns (namespace : string) (manifests : list (gmap string value))
    (texts : list string) :
  Forall Manifest manifests →
  Forall2 (λ entries text,
             yaml_Marshal (VMap (Some (backfill namespace entries))) = (text, None))
          manifests texts →
  Forall2 (turn namespace) (Some <$> manifests) texts.
Proof.
  intros Hwf Hmarshal.
  induction Hmarshal as [|entries text manifests texts Hm _ IH]; simpl.
  - constructor.
  - apply Forall_cons in Hwf as [Hentries Hwf].
    constructor; [|by apply IH].
    exists (Some (backfill namespace entries)).
    by rewrite injectNamespaceBack_entry_backfill.
Qed.

(** C3. On a manifest set the batch injector returns, with no error, the
    texts of the backfilled manifests joined by the document marker, if
    the marshaller renders them: each manifest goes through its turn as
    its backfill, whatever namespace it carries. The backfill sets
    [metadata.namespace] to the supplied namespace on a manifest whose
    namespace is missing, null or the empty string, keeping its other
    keys, and is the identity on every other manifest. *)
Theorem injectNamespaceBack_backfills (unifiedManifest namespace : string)
    (manifests : list (gmap string value)) (texts : list string) :
  DecodeMaps unifiedManifest = (Some <$> manifests, None) →
  Forall Manifest manifests →
  Forall2 (λ entries text,
             yaml_Marshal (VMap (Some (backfill namespace entries))) = (text, None))
          manifests texts →
  injectNamespaceBack unifiedManifest namespace
  = Returns (Join texts (nl +:+ "---" +:+ nl), None)
  ∧ Forall (λ entries,
              injectNamespaceBack_entry (Some entries) namespace
              = Returns (Some (backfill namespace entries), None)) manifests
  ∧ Forall (λ entries,
              if lacks_namespace entries
              then carried_namespace (backfill namespace entries) = VString namespace
                   ∧ ∀ k, k ≠ "metadata" →
                          backfill namespace entries !! k = entries !! k
              else backfill namespace entries = entries) manifests.
Proof.
  intros Hdec Hwf Hmarshal. split_and!.
  - unfold injectNamespaceBack. rewrite Hdec.
    rewrite (injectNamespaceBack_loop_run namespace _ texts); [done|].
    by apply Manifest_turns.
  - eapply Forall_impl; [exact Hwf|]. intros entries.
    apply injectNamespaceBack_entry_backfill.
  - apply Forall_forall. intros entries _. apply backfill_characterised.
Qed.

Lemma DecodeMaps_mappings (doc : string) (manifests : list gomap) :
  yaml_NewDecoder doc = (λ manifest, DecodeValue (VMap manifest)) <$> manifests →
  DecodeMaps doc = (manifests, None).
Proof.
  intros Hdec. unfold DecodeMaps.
  rewrite (Decode_values doc (VMap <$> manifests))
    by (by rewrite Hdec, <- list_fmap_compose).
  rewrite DecodeMaps_loop_accepts.
  - simpl. rewrite <- list_fmap_compose. by rewrite list_fmap_id.
  - apply Forall_fmap, Forall_forall. done.
Qed.

(** C8. The backfill is idempotent: when [injectNamespaceBack] has turned
    a manifest stream into [out], and the decoder reads [out] back as the
    manifests that were marshalled into it, a second run with the same
    namespace on [out] returns [out] again. *)
Theorem injectNamespaceBack_idempotent (unifiedManifest namespace out : string)
    (manifests : list gomap) :
  DecodeMaps unifiedManifest = (manifests, None) →
  injectNamespaceBack unifiedManifest namespace = Returns (out, None) →
  yaml_NewDecoder out
  = (λ manifest, DecodeValue (VMap (injected namespace manifest))) <$> manifests →
  injectNamespaceBack out namespace = Returns (out, None).
Proof.
  intros Hdec Hfirst Hback. unfold injectNamespaceBack in Hfirst |- *.
  rewrite Hdec in Hfirst.
  apply injectNamespaceBack_loop_success in Hfirst as (texts & Hturns & ->).
  rewrite (DecodeMaps_mappings _ (injected namespace <$> manifests))
    by (by rewrite Hback, <- list_fmap_compose).
  apply injectNamespaceBack_loop_run, Forall2_fmap_l.
  eapply Forall2_impl; [exact Hturns|].
  intros manifest text (manifest' & Hentry & Hm). exists manifest'.
  unfold injected. rewrite Hentry. split; [|done].
  by eapply injectNamespaceBack_entry_idempotent.
Qed.

(** C10. A metadata key that holds null: [injectNamespace] returns an
    error and creates nothing, whereas the turn of [injectNamespaceBack]
    stores a new metadata mapping holding the namespace, just as it does
    for the manifest without the key. *)
Theorem null_metadata_single_and_batch (σ : store) (l : loc) entries
    (namespace : string) :
  σ !! l = Some entries →
  entries !! "metadata" = Some VNil →
  injectNamespace σ (Some l) namespace
  = Returns (σ, (None, Some (ErrReflectMetadata (Some entries))))
  ∧ injectNamespaceBack_entry (Some entries) namespace
    = Returns (Some (<["metadata" := VMap (Some {["namespace" := VString namespace]})]>
                       entries), None)
  ∧ injectNamespaceBack_entry (Some (delete "metadata" entries)) namespace
    = Returns (Some (<["metadata" := VMap (Some {["namespace" := VString namespace]})]>
                       entries), None).
Proof.
  intros Hl Hmeta. split_and!.
  - unfold injectNamespace, map_has.
    rewrite Hl, bool_decide_eq_true_2 by eauto.
    rewrite Hl. simpl. by rewrite Hmeta.
  - unfold injectNamespaceBack_entry. simpl. by rewrite Hmeta.
  - unfold injectNamespaceBack_entry. simpl. rewrite lookup_delete_eq. simpl.
    by rewrite insert_delete_eq.
Qed.

End InjectNamespaceBackProperties.

(* ===================================================================== *)
(** ** Properties of cleanManifest *)
(* ===================================================================== *)

Section CleanManifestProperties.
Context `{YamlLib}.

Lemma length_positive_nonempty (s : string) :
  Nat.ltb 0 (String.length s) = nonempty s.
Proof. by destruct s. Qed.

Lemma cleanManifest_entry_survives (cleaned : list string) (entry : string) :
  cleanManifest_entry cleaned entry
  = cleaned ++ (if survives entry then [entry] else []).
Proof.
  unfold cleanManifest_entry, survives.
  destruct (yaml_Unmarshal_map entry).
  - by rewrite app_nil_r.
  - rewrite length_positive_nonempty.
    destruct (nonempty (TrimSpace entry)); by rewrite ?app_nil_r.
Qed.

Lemma cleanManifest_loop_filter (manifests cleaned : list string) :
  fold_left cleanManifest_entry manifests cleaned
  = cleaned ++ List.filter survives manifests.
Proof.
  revert cleaned. induction manifests as [|entry manifests IH]; intros cleaned; simpl.
  - by rewrite app_nil_r.
  - rewrite IH, cleanManifest_entry_survives, <- app_assoc.
    by destruct (survives entry).
Qed.

(** C7. [cleanManifest] never returns an error; its text is the trimmed
    join, by the marker, of the fragments between markers that parse as a
    mapping and are not blank. With a parser that takes the two [key:
    value] fragments of the three-document example as mappings and
    refuses the middle one, the example loses its middle fragment. *)
Theorem cleanManifest_filters (manifest : string) (e : error) :
  yaml_Unmarshal_map "foo: I am valid" = None →
  yaml_Unmarshal_map (nl +:+ "I'm not valid") = Some e →
  yaml_Unmarshal_map (nl +:+ "bar: I am valid") = None →
  cleanManifest manifest
  = (TrimSpace (Join (List.filter survives (Split manifest (nl +:+ "---")))
                  (nl +:+ "---")), None)
  ∧ cleanManifest three_documents
    = ("foo: I am valid" +:+ nl +:+ "---" +:+ nl +:+ "bar: I am valid", None).
Proof.
  intros Hfoo Hnot Hbar.
  assert (Hgen : ∀ m, cleanManifest m
    = (TrimSpace (Join (List.filter survives (Split m (nl +:+ "---")))
                    (nl +:+ "---")), None)).
  { intros m. unfold cleanManifest. by rewrite cleanManifest_loop_filter. }
  split; [apply Hgen|]. rewrite Hgen.
  change (Split three_documents (nl +:+ "---"))
    with ["foo: I am valid"; nl +:+ "I'm not valid"; nl +:+ "bar: I am valid"].
  unfold List.filter, survives. rewrite Hfoo, Hnot, Hbar.
  reflexivity.
Qed.

End CleanManifestProperties.

(* ===================================================================== *)
(** ** Properties of the helm command lines *)
(* ===================================================================== *)

Section CommandLineProperties.
Context `{HelmEnv}.

Lemma fold_flags (flag : string) (items args : list string) :
  fold_left (λ args item, args ++ [flag; item]) items args
  = args ++ concat ((λ item, [flag; item]) <$> items).
Proof.
  revert args. induction items as [|item items IH]; intros args; simpl.
  - by rewrite app_nil_r.
  - by rewrite IH, <- app_assoc.
Qed.

Lemma nonempty_true (s : string) : s ≠ "" → nonempty s = true.
Proof. unfold nonempty. intros Hs. by destruct s. Qed.


End CommandLineProperties.

(* ===================================================================== *)
(** ** The statements on the sample collaborators *)
(* ===================================================================== *)

Lemma DecodeMaps_projection_witness :
  @DecodeMaps Sample.yaml Sample.service_text = ([Some Sample.service], None)
  ∧ ∃ v, @DecodeMaps Sample.yaml Sample.two_mappings_and_a_sequence
         = ([], Some (ErrReflectValue v)).
Proof.
  split.
  - destruct (@DecodeMaps_projection Sample.yaml Sample.service_text
                [VMap (Some Sample.service)] eq_refl) as [Hall _].
    destruct Hall as (maps & -> & Hlen & _ & Hmap).
    + repeat constructor.
    + destruct maps as [|m [|? ?]]; try discriminate Hlen.
      specialize (Hmap 0 _ eq_refl). by injection Hmap as ->.
  - destruct (@DecodeMaps_projection Sample.yaml Sample.two_mappings_and_a_sequence
                [VMap (Some {["foo" := VString "bar"]});
                 VMap (Some {["baz" := VString "zoo"]});
                 VSlice [VString "a"; VString "b"]] eq_refl) as [_ Hex].
    destruct Hex as (v & _ & _ & ->); [|by exists v].
    do 2 apply Exists_cons_tl. apply Exists_cons_hd. simpl. tauto.
Defined.

Lemma injectNamespace_existing_namespace_witness :
  injectNamespace {[1%positive := Sample.service_in_prod]} (Some 1%positive) "foo"
  = Returns ({[1%positive := Sample.service_in_prod]},
             (None, Some (ErrExistingNamespace (Some Sample.service_in_prod)))).
Proof.
  apply (injectNamespace_existing_namespace _ _ _
           {["namespace" := VString "prod"]} (VString "prod"));
    [reflexivity | reflexivity | reflexivity | discriminate].
Defined.

Lemma injectNamespaceBack_backfills_witness :
  @injectNamespaceBack Sample.yaml Sample.service_text "prod"
  = Returns (Sample.service_in_prod_text, None).
Proof.
  apply (@injectNamespaceBack_backfills Sample.yaml Sample.service_text "prod"
           [Sample.service] [Sample.service_in_prod_text]).
  - reflexivity.
  - repeat constructor.
  - repeat constructor.
Defined.

Lemma injectNamespace_nil_and_no_metadata_witness :
  injectNamespace {[1%positive := ∅]} None "foo"
  = Returns ({[1%positive := ∅]}, (None, None))
  ∧ injectNamespace {[1%positive := ∅]} (Some 1%positive) "foo"
    = Returns ({[1%positive :=
                   {["metadata" := VMap (Some {["namespace" := VString "foo"]})]}]},
               (Some 1%positive, None)).
Proof.
  exact (injectNamespace_nil_and_no_metadata {[1%positive := ∅]} 1%positive ∅ "foo"
           eq_refl eq_refl).
Defined.

Lemma Decode_invalid_document_witness :
  @Decode Sample.yaml Sample.broken_text
  = ([], Some (Errorf ("decoding yaml in yaml document " +:+ Sample.broken_text))).
Proof.
  apply (@Decode_invalid_document Sample.yaml Sample.broken_text
           (Errorf "yaml: line 3: did not find expected node content")).
  right. left.
Defined.

Lemma Decode_empty_input_witness : @Decode Sample.yaml "" = ([], None).
Proof. apply (@Decode_empty_input Sample.yaml). reflexivity. Defined.

Lemma cleanManifest_filters_witness :
  @cleanManifest Sample.yaml three_documents
  = ("foo: I am valid" +:+ nl +:+ "---" +:+ nl +:+ "bar: I am valid", None).
Proof.
  apply (@cleanManifest_filters Sample.yaml ""
           (Errorf "yaml: unmarshal errors: cannot unmarshal !!str into map[string]interface {}"));
    reflexivity.
Defined.

Lemma injectNamespaceBack_idempotent_witness :
  @injectNamespaceBack Sample.yaml Sample.service_in_prod_text "prod"
  = Returns (Sample.service_in_prod_text, None).
Proof.
  apply (@injectNamespaceBack_idempotent Sample.yaml Sample.service_text "prod"
           Sample.service_in_prod_text [Some Sample.service]);
    reflexivity.
Defined.


Lemma null_metadata_single_and_batch_witness :
  injectNamespace {[1%positive := {["metadata" := VNil]}]} (Some 1%positive) "foo"
  = Returns ({[1%positive := {["metadata" := VNil]}]},
             (None, Some (ErrReflectMetadata (Some {["metadata" := VNil]}))))
  ∧ injectNamespaceBack_entry (Some {["metadata" := VNil]}) "foo"
    = Returns (Some {["metadata" := VMap (Some {["namespace" := VString "foo"]})]}, None)
  ∧ injectNamespaceBack_entry (Some ∅) "foo"
    = Returns (Some {["metadata" := VMap (Some {["namespace" := VString "foo"]})]}, None).
Proof.
  exact (null_metadata_single_and_batch {[1%positive := {["metadata" := VNil]}]}
           1%positive {["metadata" := VNil]} "foo" eq_refl eq_refl).
Defined.

(* ===================================================================== *)
(** ** Further properties of Decode and DecodeMaps *)
(* ===================================================================== *)

Section DecodeInversion.
Context `{YamlLib}.

Lemma Decode_loop_inversion (doc : string) (decoder : list decode_result)
    (acc values : list value) (err : option error) :
  Decode_loop doc decoder acc = (values, err) →
  match err with
  | None => ∃ vs, decoder = DecodeValue <$> vs ∧ values = acc ++ vs
  | Some e =>
      values = []
      ∧ e = Errorf ("decoding yaml in yaml document " +:+ doc)
      ∧ ∃ e', DecodeError e' ∈ decoder
  end.
Proof.
  revert acc. induction decoder as [|[v|e'] decoder IH]; intros acc; simpl.
  - intros [= <- <-]. exists []. by rewrite app_nil_r.
  - intros Hloop. specialize (IH _ Hloop). destruct err as [e|].
    + destruct IH as (-> & -> & e' & Hin). split_and!; [done..|].
      exists e'. by right.
    + destruct IH as (vs & -> & ->). exists (v :: vs).
      by rewrite <- app_assoc.
  - intros [= <- <-]. split_and!; [done..|]. exists e'. by left.
Qed.

(** X1. What [Decode] returns tells what the decoder did. Without an error
    the values are all the documents of the stream, in stream order, and
    none was unreadable; with an error there are no values, the message
    is the one built from the raw input, and some document was
    unreadable. *)
Theorem Decode_inversion (doc : string) (values : list value) (err : option error) :
  Decode doc = (values, err) →
  match err with
  | None => yaml_NewDecoder doc = DecodeValue <$> values
  | Some e =>
      values = []
      ∧ e = Errorf ("decoding yaml in yaml document " +:+ doc)
      ∧ ∃ e', DecodeError e' ∈ yaml_NewDecoder doc
  end.
Proof.
  intros Hdec. apply Decode_loop_inversion in Hdec.
  destruct err; [done|]. by destruct Hdec as (vs & -> & ->).
Qed.

Lemma DecodeMaps_loop_inversion (values : list value) (acc maps : list gomap)
    (err : option error) :
  DecodeMaps_loop values acc = (maps, err) →
  match err with
  | None => Forall null_or_mapping values ∧ maps = acc ++ (contribution <$> values)
  | Some e =>
      maps = []
      ∧ ∃ pre v post, values = pre ++ v :: post
          ∧ Forall null_or_mapping pre ∧ ¬ null_or_mapping v
          ∧ e = ErrReflectValue v
  end.
Proof.
  revert acc. induction values as [|v values IH]; intros acc.
  - simpl. intros [= <- <-]. by rewrite app_nil_r.
  - destruct (decide (null_or_mapping v)) as [Hv|Hv].
    + intros Hloop.
      assert (Hstep : DecodeMaps_loop values (acc ++ [contribution v]) = (maps, err))
        by (destruct v; try done; exact Hloop).
      specialize (IH _ Hstep). destruct err as [e|].
      * destruct IH as (-> & pre & w & post & -> & Hpre & Hw & ->).
        split; [done|]. exists (v :: pre), w, post. split_and!; by try constructor.
      * destruct IH as (Hall & ->). split; [by constructor|].
        by rewrite <- app_assoc.
    + intros Hloop.
      assert (maps = [] ∧ err = Some (ErrReflectValue v)) as [-> ->]
        by (destruct v; simpl in *; try (by destruct Hv); by injection Hloop as <- <-).
      split; [done|]. exists [], v, values. split_and!; by try constructor.
Qed.

(** X2. What [DecodeMaps] returns tells what was decoded. Without an error
    every document of the stream decoded, each was null or a mapping, and
    the entries are their contributions in order (as many entries as
    documents). With an error nothing is returned, and either it is the
    error of [Decode], or the stream decoded and the error names the
    first document that is neither null nor a mapping. *)
Theorem DecodeMaps_inversion (doc : string) (maps : list gomap) (err : option error) :
  DecodeMaps doc = (maps, err) →
  match err with
  | None =>
      ∃ values, Decode doc = (values, None)
        ∧ Forall null_or_mapping values
        ∧ maps = contribution <$> values
        ∧ length maps = length values
  | Some e =>
      maps = []
      ∧ ((∃ values, Decode doc = (values, Some e))
         ∨ (∃ pre v post, Decode doc = (pre ++ v :: post, None)
              ∧ Forall null_or_mapping pre ∧ ¬ null_or_mapping v
              ∧ e = ErrReflectValue v))
  end.
Proof.
  unfold DecodeMaps. destruct (Decode doc) as [values [e|]] eqn:Hdec.
  - intros [= <- <-]. split; [done|]. left. by exists values.
  - intros Hloop. apply DecodeMaps_loop_inversion in Hloop.
    destruct err as [e|].
    + destruct Hloop as (-> & pre & v & post & -> & ? & ? & ->).
      split; [done|]. right. by exists pre, v, post.
    + destruct Hloop as (Hall & ->). exists values. simpl.
      split_and!; [done..|]. by rewrite length_fmap.
Qed.

End DecodeInversion.

Lemma Decode_inversion_witness :
  @yaml_NewDecoder Sample.yaml Sample.two_mappings_and_a_sequence
  = DecodeValue <$> [VMap (Some {["foo" := VString "bar"]});
                     VMap (Some {["baz" := VString "zoo"]});
                     VSlice [VString "a"; VString "b"]].
Proof.
  exact (@Decode_inversion Sample.yaml Sample.two_mappings_and_a_sequence _ None
           eq_refl).
Defined.

Lemma DecodeMaps_inversion_witness :
  ∃ values, @Decode Sample.yaml Sample.service_text = (values, None)
    ∧ Forall null_or_mapping values
    ∧ [Some Sample.service] = contribution <$> values
    ∧ length [Some Sample.service] = length values.
Proof.
  exact (@DecodeMaps_inversion Sample.yaml Sample.service_text
           [Some Sample.service] None eq_refl).
Defined.

(* ===================================================================== *)
(** ** Further properties of injectNamespace *)
(* ===================================================================== *)

Section InjectNamespaceInversion.
Implicit Types (σ : store) (l : loc) (entries metadata : gmap string value).

(** X3. An error of [injectNamespace] has one of two causes, and leaves
    no trace: the manifest holds under [metadata] something that is not a
    [map[string]interface{}] (nil included), or its metadata mapping holds
    a namespace other than nil. In both cases the store is the one the
    call started from and the returned manifest is nil. *)
Theorem injectNamespace_error_inversion σ (manifest : option loc)
    (namespace : string) σ' (ret : option loc) (err : error) :
  injectNamespace σ manifest namespace = Returns (σ', (ret, Some err)) →
  σ' = σ ∧ ret = None
  ∧ ∃ l entries, manifest = Some l ∧ σ !! l = Some entries
      ∧ ((∃ v, entries !! "metadata" = Some v ∧ ¬ is_map v
               ∧ err = ErrReflectMetadata (Some entries))
         ∨ (∃ md, entries !! "metadata" = Some (VMap md)
                  ∧ map_index md "namespace" ≠ VNil
                  ∧ err = ErrExistingNamespace (Some entries))).
Proof.
  unfold injectNamespace.
  destruct manifest as [l|]; [|done].
  destruct (σ !! l) as [entries|] eqn:Hl; [|done].
  unfold map_has. destruct (entries !! "metadata") as [v|] eqn:Hmeta.
  - rewrite bool_decide_eq_true_2 by eauto. rewrite Hl. simpl. rewrite Hmeta. simpl.
    destruct v as [| | | | |md|];
      try (intros [= <- <- <-]; split_and!; [done..|];
           exists l, entries; split_and!; [done..|]; left;
           eexists; split_and!; [done| |done]; simpl; tauto).
    destruct (is_nil (map_index md "namespace")) eqn:Hns; simpl.
    + destruct md; simpl; done.
    + intros [= <- <- <-]. split_and!; [done..|].
      exists l, entries. split_and!; [done..|]. right.
      exists md. split_and!; [done| |done]. intros Heq. by rewrite Heq in Hns.
  - rewrite bool_decide_eq_false_2 by (intros [? ?]; done).
    rewrite lookup_insert_eq. simpl. rewrite lookup_insert_eq. simpl.
    rewrite lookup_empty. simpl. done.
Qed.

Lemma injectNamespace_success σ l entries (namespace : string) σ'
    (ret : option loc) :
  σ !! l = Some entries →
  injectNamespace σ (Some l) namespace = Returns (σ', (ret, None)) →
  ret = Some l
  ∧ σ' = <[l := with_namespace namespace entries]> σ
  ∧ (entries !! "metadata" = None
     ∨ ∃ metadata, entries !! "metadata" = Some (VMap (Some metadata))
                   ∧ map_index (Some metadata) "namespace" = VNil).
Proof.
  intros Hl. unfold injectNamespace, map_has. rewrite Hl.
  unfold with_namespace.
  destruct (entries !! "metadata") as [v|] eqn:Hmeta.
  - rewrite bool_decide_eq_true_2 by eauto. rewrite Hl. simpl. rewrite Hmeta. simpl.
    destruct v as [| | | | |md|]; try done.
    destruct (is_nil (map_index md "namespace")) eqn:Hns; simpl; [|done].
    destruct md as [metadata|]; simpl; [|done].
    intros [= <- <-]. split_and!; [done| |].
    + apply map_eq. intros l'. destruct (decide (l = l')) as [<-|Hne].
      * by rewrite lookup_alter_eq, lookup_insert_eq, Hl.
      * by rewrite lookup_alter_ne, lookup_insert_ne.
    + right. exists metadata. split; [done|].
      simpl in *. by destruct (default VNil (metadata !! "namespace")).
  - rewrite bool_decide_eq_false_2 by (intros [? ?]; done).
    rewrite lookup_insert_eq. simpl. rewrite lookup_insert_eq. simpl.
    rewrite lookup_empty. simpl. intros [= <- <-].
    rewrite alter_insert_eq, insert_insert_eq. split_and!; [done..|by left].
Qed.

Lemma injectNamespace_carrying σ l entries (md : gomap) (namespace : string) :
  σ !! l = Some entries →
  entries !! "metadata" = Some (VMap md) →
  map_index md "namespace" ≠ VNil →
  injectNamespace σ (Some l) namespace
  = Returns (σ, (None, Some (ErrExistingNamespace (Some entries)))).
Proof.
  intros Hl Hmeta Hns. unfold injectNamespace, map_has.
  rewrite Hl, bool_decide_eq_true_2 by eauto.
  rewrite Hl. simpl. rewrite Hmeta. simpl.
  by destruct (map_index md "namespace").
Qed.

Lemma with_namespace_carries (namespace : string) entries :
  with_namespace namespace entries !! "metadata"
  = Some (VMap (Some (<["namespace" := VString namespace]>
                        match entries !! "metadata" with
                        | Some (VMap (Some metadata)) => metadata
                        | _ => ∅
                        end))).
Proof. unfold with_namespace. by rewrite lookup_insert_eq. Qed.


(** X5. [injectNamespace] is a guard, not a normaliser: after a successful
    call, a second call on the same manifest, with any namespace (the same
    one included), returns the existing-namespace error and leaves the
    store as the first call left it. *)
Theorem injectNamespace_second_call σ l entries (namespace namespace' : string) σ'
    (ret : option loc) :
  σ !! l = Some entries →
  injectNamespace σ (Some l) namespace = Returns (σ', (ret, None)) →
  injectNamespace σ' (Some l) namespace'
  = Returns (σ', (None, Some (ErrExistingNamespace
                                (Some (with_namespace namespace entries))))).
Proof.
  intros Hl Hret.
  destruct (injectNamespace_success _ _ _ _ _ _ Hl Hret) as (-> & -> & _).
  eapply injectNamespace_carrying.
  - apply lookup_insert_eq.
  - apply with_namespace_carries.
  - simpl. by rewrite lookup_insert_eq.
Qed.

(** X6. Where the strict injector succeeds, the batch injector does the
    same to the manifest: its turn on the contents of the manifest returns,
    with no error, the contents [injectNamespace] leaves in the store. *)
Theorem injectNamespace_agrees_with_batch σ l entries (namespace : string) σ'
    (ret : option loc) :
  σ !! l = Some entries →
  injectNamespace σ (Some l) namespace = Returns (σ', (ret, None)) →
  injectNamespaceBack_entry (σ !! l) namespace = Returns (σ' !! l, None).
Proof.
  intros Hl Hret.
  destruct (injectNamespace_success _ _ _ _ _ _ Hl Hret) as (-> & -> & Hold).
  rewrite Hl, lookup_insert_eq.
  unfold injectNamespaceBack_entry, with_namespace. simpl.
  destruct Hold as [Hmeta|(md & Hmeta & Hns)]; rewrite Hmeta; simpl.
  - done.
  - simpl in Hns. by rewrite Hns.
Qed.

End InjectNamespaceInversion.

Lemma injectNamespace_error_inversion_witness :
  ∃ l entries, Some 1%positive = Some l
      ∧ SampleStore.with_service_in_prod !! l = Some entries
      ∧ ((∃ v, entries !! "metadata" = Some v ∧ ¬ is_map v
               ∧ ErrExistingNamespace (Some Sample.service_in_prod)
                 = ErrReflectMetadata (Some entries))
         ∨ (∃ md, entries !! "metadata" = Some (VMap md)
                  ∧ map_index md "namespace" ≠ VNil
                  ∧ ErrExistingNamespace (Some Sample.service_in_prod)
                    = ErrExistingNamespace (Some entries))).
Proof.
  destruct (injectNamespace_error_inversion SampleStore.with_service_in_prod
              (Some 1%positive) "foo" SampleStore.with_service_in_prod None
              (ErrExistingNamespace (Some Sample.service_in_prod)) eq_refl)
    as (_ & _ & Hcause).
  exact Hcause.
Defined.


Lemma injectNamespace_second_call_witness :
  injectNamespace SampleStore.with_service_in_prod (Some 1%positive) "prod"
  = Returns (SampleStore.with_service_in_prod,
             (None, Some (ErrExistingNamespace
                            (Some (with_namespace "prod" Sample.service))))).
Proof.
  exact (injectNamespace_second_call SampleStore.with_service 1%positive
           Sample.service "prod" "prod" SampleStore.with_service_in_prod
           (Some 1%positive) eq_refl eq_refl).
Defined.

Lemma injectNamespace_agrees_with_batch_witness :
  injectNamespaceBack_entry (SampleStore.with_service !! 1%positive) "prod"
  = Returns (SampleStore.with_service_in_prod !! 1%positive, None).
Proof.
  exact (injectNamespace_agrees_with_batch SampleStore.with_service
           1%positive Sample.service "prod" SampleStore.with_service_in_prod
           (Some 1%positive) eq_refl eq_refl).
Defined.

(* ===================================================================== *)
(** ** Further properties of injectNamespaceBack *)
(* ===================================================================== *)

Section InjectNamespaceBackInversion.
Context `{YamlLib}.


Lemma injectNamespaceBack_loop_app (namespace : string) (pre rest : list gomap)
    (texts withInjectedNS : list string) :
  Forall2 (turn namespace) pre texts →
  injectNamespaceBack_loop (pre ++ rest) namespace withInjectedNS
  = injectNamespaceBack_loop rest namespace (withInjectedNS ++ texts).
Proof.
  intros Hturns. revert withInjectedNS.
  induction Hturns as [|manifest text pre texts (m' & Hentry & Hm) _ IH];
    intros acc; simpl.
  - by rewrite app_nil_r.
  - rewrite Hentry, Hm, IH, <- app_assoc. done.
Qed.

(** X8. A null document in the stream brings [injectNamespaceBack] down:
    when the manifests before it go through their turns, the turn of the
    null document writes to the nil map and the call panics; it returns
    neither a text nor an error. *)
Theorem injectNamespaceBack_null_document (unifiedManifest namespace : string)
    (pre post : list gomap) (texts : list string) :
  DecodeMaps unifiedManifest = (pre ++ None :: post, None) →
  Forall2 (turn namespace) pre texts →
  injectNamespaceBack unifiedManifest namespace
  = Panics "assignment to entry in nil map".
Proof.
  intros Hdec Hturns. unfold injectNamespaceBack. rewrite Hdec.
  by rewrite (injectNamespaceBack_loop_app _ _ _ texts).
Qed.

End InjectNamespaceBackInversion.


Lemma injectNamespaceBack_null_document_witness :
  @injectNamespaceBack SampleNull.yaml SampleNull.service_then_null "prod"
  = Panics "assignment to entry in nil map".
Proof.
  apply (@injectNamespaceBack_null_document SampleNull.yaml
           SampleNull.service_then_null "prod" [Some Sample.service] []
           [Sample.service_in_prod_text]).
  - reflexivity.
  - repeat constructor. exists (Some Sample.service_in_prod). by split.
Defined.

(* ===================================================================== *)
(** ** Split and Join, and further properties of cleanManifest *)
(* ===================================================================== *)

Section SplitJoin.

Lemma string_app_cons (x : ascii) (a b : string) :
  String x a +:+ b = String x (a +:+ b).
Proof. reflexivity. Qed.

Lemma string_app_nil_l (a : string) : "" +:+ a = a.
Proof. reflexivity. Qed.

Lemma string_app_assoc (a b c : string) : (a +:+ b) +:+ c = a +:+ (b +:+ c).
Proof.
  induction a as [|x a IH]; [done|]. rewrite !string_app_cons. by rewrite IH.
Qed.

Lemma string_app_nil_r (a : string) : a +:+ "" = a.
Proof.
  induction a as [|x a IH]; [done|]. rewrite string_app_cons. by rewrite IH.
Qed.

Lemma string_app_length (a b : string) :
  String.length (a +:+ b) = String.length a + String.length b.
Proof.
  induction a as [|x a IH]; [done|]. rewrite string_app_cons. simpl. by rewrite IH.
Qed.

Lemma prefix_split (p s : string) :
  String.prefix p s = true → ∃ t, s = p +:+ t.
Proof.
  revert s. induction p as [|x p IH]; intros s.
  - intros _. by exists s.
  - destruct s as [|y s]; simpl; [done|].
    destruct (Ascii.ascii_dec x y) as [<-|]; [|done].
    intros Hp. destruct (IH _ Hp) as [t ->]. exists t.
    by rewrite string_app_cons.
Qed.

Lemma string_app_inj_length (p1 p2 t1 t2 : string) :
  p1 +:+ t1 = p2 +:+ t2 → String.length p1 = String.length p2 →
  p1 = p2 ∧ t1 = t2.
Proof.
  revert p2. induction p1 as [|x p1 IH]; intros [|y p2];
    rewrite ?string_app_cons, ?string_app_nil_l; simpl; try done.
  intros [= <- Happ] [= Hlen]. by destruct (IH _ Happ Hlen) as [-> ->].
Qed.

Lemma Split_scan_nonempty (sep : string) (skip : nat) (cur s : string) :
  Split_scan sep skip cur s ≠ [].
Proof.
  revert skip cur. induction s as [|c s IH]; intros skip cur; [done|].
  cbn [Split_scan]. destruct skip; [|apply IH].
  destruct (String.prefix sep (String c s)); [done|apply IH].
Qed.

Lemma Join_cons (e : string) (rest : list string) (sep : string) :
  rest ≠ [] → Join (e :: rest) sep = e +:+ sep +:+ Join rest sep.
Proof. by destruct rest. Qed.

Lemma Split_scan_Join (a : ascii) (sep0 s : string) (skip : nat) (cur : string) :
  (skip ≤ String.length s)%nat →
  ∃ pre t, s = pre +:+ t ∧ String.length pre = skip
           ∧ Join (Split_scan (String a sep0) skip cur s) (String a sep0) = cur +:+ t.
Proof.
  revert skip cur. induction s as [|c s IH]; intros skip cur Hskip.
  - exists "", "". simpl in *. split_and!; [done|lia|]. by rewrite string_app_nil_r.
  - destruct skip as [|k].
    + exists "", (String c s). split_and!; [done..|].
      cbn [Split_scan].
      destruct (String.prefix (String a sep0) (String c s)) eqn:Hp.
      * rewrite Join_cons by apply Split_scan_nonempty.
        destruct (prefix_split _ _ Hp) as [t Ht]. rewrite string_app_cons in Ht.
        injection Ht as Hc Hs'. subst c s.
        destruct (IH (String.length (String a sep0) - 1) "") as (pre & t' & Hs & Hlen & ->).
        { simpl. rewrite string_app_length. lia. }
        simpl in Hlen. rewrite Nat.sub_0_r in Hlen.
        destruct (string_app_inj_length _ _ _ _ Hs (eq_sym Hlen)) as [<- <-].
        by rewrite string_app_nil_l, !string_app_cons.
      * destruct (IH 0 (cur +:+ String c "")) as (pre & t & Hs & Hlen & ->); [lia|].
        destruct pre; [|done]. rewrite string_app_nil_l in Hs. subst t.
        by rewrite string_app_assoc.
    + destruct (IH k cur) as (pre & t & -> & <- & Hjoin); [simpl in Hskip; lia|].
      exists (String c pre), t. by rewrite string_app_cons.
Qed.

(** Joining what [Split] cut gives the text back. *)
Lemma Join_Split (s sep : string) : sep ≠ "" → Join (Split s sep) sep = s.
Proof.
  intros Hsep. destruct sep as [|a sep0]; [done|]. unfold Split.
  destruct (Split_scan_Join a sep0 s 0 "") as (pre & t & -> & Hlen & ->); [lia|].
  by destruct pre.
Qed.

Lemma filter_all {A : Type} (f : A → bool) (l : list A) :
  Forall (λ x, f x = true) l → List.filter f l = l.
Proof.
  induction 1 as [|x l Hx _ IH]; simpl; [done|]. by rewrite Hx, IH.
Qed.

Lemma filter_none {A : Type} (f : A → bool) (l : list A) :
  Forall (λ x, f x = false) l → List.filter f l = [].
Proof.
  induction 1 as [|x l Hx _ IH]; simpl; [done|]. by rewrite Hx, IH.
Qed.

End SplitJoin.

Section CleanManifestFurther.
Context `{YamlLib}.

(** X9. A text whose fragments are all blank is cleaned to the empty
    text, whatever the parser makes of blank fragments; so is the empty
    text itself. *)
Theorem cleanManifest_blank (manifest : string) :
  Forall (λ entry, TrimSpace entry = "") (Split manifest (nl +:+ "---")) →
  cleanManifest manifest = ("", None) ∧ cleanManifest "" = ("", None).
Proof.
  assert (Hgen : ∀ m,
    Forall (λ entry, TrimSpace entry = "") (Split m (nl +:+ "---")) →
    cleanManifest m = ("", None)).
  { intros m Hblank. unfold cleanManifest.
    rewrite cleanManifest_loop_filter, filter_none; [done|].
    eapply Forall_impl; [exact Hblank|]. intros entry Hentry.
    unfold survives. rewrite Hentry. by destruct (yaml_Unmarshal_map entry). }
  intros Hblank. split; [by apply Hgen|]. apply Hgen. by repeat constructor.
Qed.

(** X10. A text all of whose fragments parse as mappings and are not blank
    comes out of the cleaning as it went in, up to the final trimming:
    nothing is lost or reordered by the split and the join. *)
Theorem cleanManifest_keeps_valid (manifest : string) :
  Forall (λ entry, survives entry = true) (Split manifest (nl +:+ "---")) →
  cleanManifest manifest = (TrimSpace manifest, None).
Proof.
  intros Hall. unfold cleanManifest.
  rewrite cleanManifest_loop_filter, filter_all by done.
  rewrite app_nil_l, Join_Split; [done|]. intros Heq. discriminate Heq.
Qed.

End CleanManifestFurther.

Lemma cleanManifest_blank_witness :
  @cleanManifest Sample.yaml (" " +:+ nl +:+ "---" +:+ nl +:+ "  ") = ("", None).
Proof.
  apply (@cleanManifest_blank Sample.yaml (" " +:+ nl +:+ "---" +:+ nl +:+ "  ")).
  repeat constructor.
Defined.

Lemma cleanManifest_keeps_valid_witness :
  @cleanManifest Sample.yaml
    ("foo: bar" +:+ nl +:+ "---" +:+ nl +:+ "baz: zoo" +:+ nl)
  = ("foo: bar" +:+ nl +:+ "---" +:+ nl +:+ "baz: zoo", None).
Proof.
  apply (@cleanManifest_keeps_valid Sample.yaml
           ("foo: bar" +:+ nl +:+ "---" +:+ nl +:+ "baz: zoo" +:+ nl)).
  repeat constructor.
Defined.

(* ===================================================================== *)
(** ** Further properties of Template and Pull *)
(* ===================================================================== *)

Section TemplateFurther.
Context `{HelmEnv}.

Lemma nonempty_false (s : string) : nonempty s = false ↔ s = "".
Proof. unfold nonempty. by destruct s. Qed.

(** X11. [Template] returns without an error exactly when it got as far as
    running helm, the run reported no error and wrote nothing to the error
    stream; its text is then what helm wrote to the output stream. Output
    on the error stream alone makes the call fail. *)
Theorem Template_success (opts : TemplateOptions) (out : string) :
  Template opts = (out, None)
  ↔ ∃ args, Template_command opts = (args, None)
      ∧ run_error (exec_helm args) = None
      ∧ run_stderr (exec_helm args) = ""
      ∧ out = run_stdout (exec_helm args).
Proof.
  unfold Template. destruct (Template_command opts) as [args [err|]] eqn:Hcmd.
  - split; [done|]. by intros (args' & [=] & _).
  - destruct (run_error (exec_helm args)) as [err|] eqn:Hrun.
    + split; [done|]. intros (args' & [= <-] & Hrun' & _). congruence.
    + destruct (run_stderr (exec_helm args)) as [|c stderr] eqn:Herr; simpl.
      * split.
        -- intros [= <-]. by exists args.
        -- by intros (args' & [= <-] & _ & _ & ->).
      * split; [done|]. intros (args' & [= <-] & _ & Herr' & _). congruence.
Qed.

(** X12. Without a repository URL in the options the repository lookup
    plays no part: [Template] gives helm the subcommand, the flags of the
    options in their fixed order (namespace, set, values, release) and the
    chart as given, and no [--repo] flag of its own. *)
Theorem Template_command_without_repo (opts : TemplateOptions) :
  Repo opts = "" →
  Template_command opts = ("template" :: option_flags opts ++ [Chart opts], None).
Proof.
  intros Hrepo. unfold Template_command, option_flags. rewrite Hrepo. simpl.
  rewrite !fold_flags.
  destruct (nonempty (Namespace opts)), (nonempty (Release opts)); simpl;
    rewrite <- ?app_assoc; simpl; rewrite ?app_nil_r; reflexivity.
Qed.

(** X13. When the repository lookup fails, neither [Template] nor [Pull]
    runs helm: [Template] returns the empty text and the lookup error
    wrapped with the URL, [Pull] returns the lookup error as it is. *)
Theorem lookup_failure_stops_helm (opts : TemplateOptions) (alias into : string)
    (err : error) :
  Repo opts ≠ "" →
  FindRepoNameByURL (Repo opts) = (alias, Some err) →
  Template opts = ("", Some (ErrSearchingRepos (Repo opts) err))
  ∧ Pull (Repo opts) (Chart opts) (Version opts) into = Some err.
Proof.
  intros Hrepo Hfind. split.
  - unfold Template, Template_command.
    by rewrite (nonempty_true _ Hrepo), Hfind.
  - unfold Pull, Pull_command. by rewrite Hfind.
Qed.

End TemplateFurther.

Lemma Template_success_witness :
  @Template SampleHelm.quiet SampleHelm.local_chart = ("kind: Service", None)
  ∧ ∃ err, @Template SampleHelm.warning_on_stderr SampleHelm.local_chart
           = ("", Some err).
Proof.
  split.
  - apply (@Template_success SampleHelm.quiet SampleHelm.local_chart "kind: Service").
    by eexists.
  - destruct (@Template SampleHelm.warning_on_stderr SampleHelm.local_chart)
      as [out [err|]] eqn:Htemplate.
    + exists err. by injection Htemplate as <- <-.
    + apply (@Template_success SampleHelm.warning_on_stderr) in Htemplate
        as (args & [= <-] & _ & Herr & _). discriminate Herr.
Defined.

Lemma Template_command_without_repo_witness :
  @Template_command SampleHelm.failing_lookup SampleHelm.local_chart
  = (["template"; "--set"; "a=b"; "--set"; "c=d"; "web"; "charts/nginx"], None).
Proof.
  exact (@Template_command_without_repo SampleHelm.failing_lookup
           SampleHelm.local_chart eq_refl).
Defined.

Lemma lookup_failure_stops_helm_witness :
  @Template SampleHelm.failing_lookup Sample.options
  = ("", Some (ErrSearchingRepos Sample.charts_url SampleHelm.lookup_error))
  ∧ @Pull SampleHelm.failing_lookup Sample.charts_url "nginx" "1.2.3" "charts"
    = Some SampleHelm.lookup_error.
Proof.
  apply (@lookup_failure_stops_helm SampleHelm.failing_lookup Sample.options ""
           "charts" SampleHelm.lookup_error); [discriminate | reflexivity].
Defined.

(* ===================================================================== *)
(** ** Properties of TemplateWithCRDs *)
(* ===================================================================== *)

Section TemplateWithCRDsProperties.
Context `{HelmEnv} `{FsEnv} `{GoUnicode} `{YamlLib}.

Lemma noNils_fold (maps noNils : list gomap) :
  fold_left noNils_step maps noNils = noNils ++ List.filter not_nil maps.
Proof.
  revert noNils. induction maps as [|[m|] maps IH]; intros noNils; simpl.
  - by rewrite app_nil_r.
  - by rewrite IH, <- app_assoc.
  - by rewrite IH.
Qed.

Lemma filter_not_nil (maps : list gomap) :
  Forall (λ m, m ≠ None) (List.filter not_nil maps).
Proof.
  induction maps as [|[m|] maps IH]; simpl; [constructor| |done].
  by constructor.
Qed.

Lemma Walk_crds_passes (visits : list walk_visit) (crds : list string) :
  Forall visit_passes visits →
  Walk_crds visits crds = (crds ++ crd_texts visits, None).
Proof.
  intros Hpass. revert crds.
  induction Hpass as [|visit visits Hvisit _ IH]; intros crds; simpl.
  - by rewrite app_nil_r.
  - destruct visit as [path info|path err]; [|done]. simpl in *.
    fold (is_crd_file info). destruct (is_crd_file info).
    + destruct (os_ReadFile path) as [crd [err|]] eqn:Hread.
      * by specialize (Hvisit eq_refl).
      * by rewrite IH, <- app_assoc.
    + by rewrite IH.
Qed.

Lemma Walk_crds_failed (visits : list walk_visit) (crds : list string)
    (path : string) (err : error) :
  VisitFailed path err ∈ visits →
  ∃ crds' cause, Walk_crds visits crds = (crds', Some cause).
Proof.
  revert crds. induction visits as [|visit visits IH]; intros crds Hin.
  - by apply elem_of_nil in Hin.
  - simpl. destruct (walk_crd crds visit) as [crds' [cause|]] eqn:Hvisit.
    + by exists crds', cause.
    + apply elem_of_cons in Hin as [<-|Hin]; [done|]. by apply IH.
Qed.

Lemma decoded_manifests_eq (text : string) :
  match DecodeMaps text with
  | (_, Some err) => ([], Some (ErrParsingTemplate err))
  | (maps, None) => (fold_left noNils_step maps [], None)
  end = decoded_manifests text.
Proof.
  unfold decoded_manifests. destruct (DecodeMaps text) as [maps [err|]]; [done|].
  by rewrite noNils_fold.
Qed.

(** X14. Whatever the collaborators do, [TemplateWithCRDs] never returns a
    nil map among its manifests, and returns no manifests at all when it
    returns an error. *)
Theorem TemplateWithCRDs_no_nil (opts : TemplateOptions) :
  Forall (λ m, m ≠ None) (fst (TemplateWithCRDs opts))
  ∧ (is_Some (snd (TemplateWithCRDs opts)) → fst (TemplateWithCRDs opts) = []).
Proof.
  unfold TemplateWithCRDs.
  repeat match goal with
  | |- context [match ?x with _ => _ end] =>
      lazymatch x with
      | DecodeMaps _ => fail
      | _ => destruct x eqn:?
      end
  | |- context [if ?x then _ else _] => destruct x eqn:?
  end; simpl; try (split; [constructor|done]).
  all: rewrite decoded_manifests_eq; unfold decoded_manifests;
    destruct (DecodeMaps _) as [maps [err|]]; simpl;
    (split; [try constructor; apply filter_not_nil | try done; by intros [? ?]]).
Qed.

(** X15. The chart on disk with a [crds] directory. When the walk of the
    directory meets no error and the collected files are readable, the
    text decoded is: the texts of the files that are not directories and
    whose extension is [.yaml] in any case, in walk order, then the output
    of [helm template], joined by the marker and trimmed. The manifests
    are the decoded maps without the nil ones, in order. *)
Theorem TemplateWithCRDs_local_chart (opts : TemplateOptions) (info : FileInfo)
    (template : string) :
  Repo opts = "" →
  os_Stat (filepath_Join (Chart opts) "crds") = inl info →
  IsDir info = true →
  Forall visit_passes (filepath_Walk (filepath_Join (Chart opts) "crds")) →
  Template (templateOpts opts (Chart opts)) = (template, None) →
  TemplateWithCRDs opts
  = decoded_manifests
      (TrimSpace
         (Join (crd_texts (filepath_Walk (filepath_Join (Chart opts) "crds"))
                ++ [template])
               (nl +:+ "---" +:+ nl))).
Proof.
  intros Hrepo Hstat Hdir Hwalk Htemplate. unfold TemplateWithCRDs.
  rewrite Hrepo. simpl. rewrite Hstat, Hdir, Walk_crds_passes by done. simpl.
  rewrite Htemplate. apply decoded_manifests_eq.
Qed.

(** X16. The chart of a repository. The repository URL reaches [helm pull]
    only: once the chart is pulled into the scratch directory, [helm
    template] is given the path of the pulled chart and no [--repo] flag,
    and the repository lookup is not consulted for it. Without a [crds]
    directory in the pulled chart the manifests are those decoded from the
    trimmed output of that run. *)
Theorem TemplateWithCRDs_remote_chart (opts : TemplateOptions) (tmpDir : string)
    (err : error) :
  Repo opts ≠ "" →
  os_MkdirTemp "" "fabrikate" = (tmpDir, None) →
  Pull (Repo opts) (Chart opts) (Version opts) tmpDir = None →
  os_Stat (filepath_Join (filepath_Join tmpDir (Chart opts)) "crds") = inr err →
  errors_Is_ErrNotExist err = true →
  Template_command (templateOpts opts (filepath_Join tmpDir (Chart opts)))
  = ("template" :: option_flags opts ++ [filepath_Join tmpDir (Chart opts)], None)
  ∧ TemplateWithCRDs opts
    = match Template (templateOpts opts (filepath_Join tmpDir (Chart opts))) with
      | (_, Some cause) =>
          ([], Some (ErrTemplating (filepath_Join tmpDir (Chart opts)) cause))
      | (template, None) => decoded_manifests (TrimSpace template)
      end.
Proof.
  intros Hrepo Htmp Hpull Hstat Hnotexist. split.
  - unfold Template_command, option_flags. simpl. rewrite !fold_flags.
    destruct (nonempty (Namespace opts)), (nonempty (Release opts)); simpl;
      rewrite <- ?app_assoc; simpl; rewrite ?app_nil_r; reflexivity.
  - unfold TemplateWithCRDs.
    rewrite (nonempty_true _ Hrepo), Htmp, Hpull, Hstat, Hnotexist. simpl.
    destruct (Template _) as [template [cause|]]; [done|].
    apply decoded_manifests_eq.
Qed.

(** X17. One entry of the [crds] directory that the walk cannot visit,
    wherever it is and whatever its name, makes the whole call fail with a
    walking error on the directory: no manifests are returned. *)
Theorem TemplateWithCRDs_walk_failure (opts : TemplateOptions) (info : FileInfo)
    (path : string) (err : error) :
  Repo opts = "" →
  os_Stat (filepath_Join (Chart opts) "crds") = inl info →
  IsDir info = true →
  VisitFailed path err ∈ filepath_Walk (filepath_Join (Chart opts) "crds") →
  ∃ cause, TemplateWithCRDs opts
           = ([], Some (ErrWalkingCRDPath (filepath_Join (Chart opts) "crds") cause)).
Proof.
  intros Hrepo Hstat Hdir Hin. unfold TemplateWithCRDs.
  rewrite Hrepo. simpl. rewrite Hstat, Hdir.
  destruct (Walk_crds_failed _ [] _ _ Hin) as (crds' & cause & ->).
  by exists cause.
Qed.

End TemplateWithCRDsProperties.

Lemma TemplateWithCRDs_local_chart_witness :
  @TemplateWithCRDs SampleChart.helm SampleChart.fs SampleChart.unicode
    SampleChart.yaml SampleChart.options
  = ([Some SampleChart.crd; Some SampleChart.crd; Some Sample.service], None).
Proof.
  exact (@TemplateWithCRDs_local_chart SampleChart.helm SampleChart.fs
           SampleChart.unicode SampleChart.yaml SampleChart.options
           {| Name := "crds"; IsDir := true |} SampleChart.template_text
           eq_refl eq_refl eq_refl
           ltac:(repeat constructor) eq_refl).
Defined.

Lemma TemplateWithCRDs_remote_chart_witness :
  @Template_command SampleChart.helm
    (templateOpts SampleChart.remote_options "/tmp/fabrikate123/nginx")
  = (["template"; "--create-namespace"; "--namespace"; "prod"; "web";
      "/tmp/fabrikate123/nginx"], None)
  ∧ @TemplateWithCRDs SampleChart.helm SampleChart.fs SampleChart.unicode
      SampleChart.yaml SampleChart.remote_options
    = ([Some Sample.service], None).
Proof.
  exact (@TemplateWithCRDs_remote_chart SampleChart.helm SampleChart.fs
           SampleChart.unicode SampleChart.yaml SampleChart.remote_options
           "/tmp/fabrikate123" SampleChart.not_found
           ltac:(discriminate) eq_refl eq_refl eq_refl eq_refl).
Defined.

Lemma TemplateWithCRDs_walk_failure_witness :
  ∃ cause,
    @TemplateWithCRDs SampleChart.helm SampleBrokenWalk.fs SampleChart.unicode
      SampleChart.yaml SampleChart.options
    = ([], Some (ErrWalkingCRDPath "charts/nginx/crds" cause)).
Proof.
  apply (@TemplateWithCRDs_walk_failure SampleChart.helm SampleBrokenWalk.fs
           SampleChart.unicode SampleChart.yaml SampleChart.options
           {| Name := "crds"; IsDir := true |}
           "charts/nginx/crds/private" SampleBrokenWalk.denied);
    [reflexivity | reflexivity | reflexivity |].
  right. right. left.
Defined.

(* ===================================================================== *)
(** ** Properties of the helm client version *)
(* ===================================================================== *)

Section VersionProperties.
Import helm_version.
Context `{GoPlatform} `{GoUnicode}.

Lemma span_digits_group (digits rest : string) :
  all_digits digits = true → group_ends rest →
  span_digits (digits +:+ rest) = (digits, rest).
Proof.
  intros Hdigits Hrest. induction digits as [|c digits IH].
  - rewrite string_app_nil_l. destruct rest as [|c rest]; [done|].
    simpl in *. by rewrite Hrest.
  - unfold all_digits in Hdigits. simpl in Hdigits.
    apply andb_prop in Hdigits as [Hc Hdigits].
    rewrite string_app_cons. simpl. rewrite Hc, IH; done.
Qed.

Lemma dot_ends_group (rest : string) : group_ends (String "." rest).
Proof. reflexivity. Qed.

Lemma semver_at_groups (c : ascii) (d1 d2 d3 rest : string) :
  Ascii.eqb c "v" || Ascii.eqb c "V" = true →
  nonempty d1 = true → nonempty d2 = true → nonempty d3 = true →
  all_digits d1 = true → all_digits d2 = true → all_digits d3 = true →
  group_ends rest →
  semver_at (String c (d1 +:+ String "." (d2 +:+ String "." (d3 +:+ rest))))
  = Some (d1, d2, d3).
Proof.
  intros Hc Hn1 Hn2 Hn3 Hd1 Hd2 Hd3 Hrest. unfold semver_at. rewrite Hc.
  rewrite (span_digits_group d1) by (done || apply dot_ends_group).
  rewrite (span_digits_group d2) by (done || apply dot_ends_group).
  rewrite (span_digits_group d3) by done.
  by rewrite Hn1, Hn2, Hn3.
Qed.

Lemma find_semver_at (s : string) (groups : string * string * string) :
  semver_at s = Some groups → find_semver s = Some groups.
Proof. intros Hat. destruct s; simpl in *; by rewrite Hat. Qed.

Lemma digit_is_no_sign (c : ascii) (body : string) :
  is_digit c = true →
  match String c body with
  | String "-" body' => (true, body')
  | String "+" body' => (false, body')
  | _ => (false, String c body)
  end = (false, String c body).
Proof.
  destruct c as [[] [] [] [] [] [] [] []]; vm_compute; intros Hc;
    first [discriminate Hc | reflexivity].
Qed.

Lemma Atoi_digits (digits : string) :
  nonempty digits = true → all_digits digits = true →
  Atoi digits
  = if (2 ^ (intSize - 1) <=? digits_value 0 digits)%Z
    then ((2 ^ (intSize - 1) - 1)%Z, Some (ErrRange digits))
    else (digits_value 0 digits, None).
Proof.
  intros Hne Hdigits. unfold Atoi. destruct digits as [|c digits]; [done|].
  assert (Hc : is_digit c = true).
  { unfold all_digits in Hdigits. simpl in Hdigits.
    by apply andb_prop in Hdigits as [Hc _]. }
  rewrite (digit_is_no_sign c digits Hc). by rewrite Hne, Hdigits.
Qed.

(** X18. A version of the form [v<major>.<minor>.<fix>] followed by
    anything that does not go on with a digit (the [v] in either case, each
    component a non-empty run of decimal digits within the range of [int])
    parses without an error to the three numbers the components write. *)
Theorem parse_semantic_version (v : BuildInfo) (c : ascii) (d1 d2 d3 rest : string) :
  Version v = String c (d1 +:+ String "." (d2 +:+ String "." (d3 +:+ rest))) →
  Ascii.eqb c "v" || Ascii.eqb c "V" = true →
  nonempty d1 = true → nonempty d2 = true → nonempty d3 = true →
  all_digits d1 = true → all_digits d2 = true → all_digits d3 = true →
  group_ends rest →
  in_range d1 → in_range d2 → in_range d3 →
  parse v = ({| major := digits_value 0 d1; minor := digits_value 0 d2;
                fix_ := digits_value 0 d3 |}, None).
Proof.
  intros Hv Hc Hn1 Hn2 Hn3 Hd1 Hd2 Hd3 Hrest Hr1 Hr2 Hr3. unfold parse.
  rewrite Hv, (find_semver_at _ (d1, d2, d3)) by by apply semver_at_groups.
  unfold in_range in *.
  rewrite !Atoi_digits by done.
  rewrite !(proj2 (Z.leb_gt _ _)) by done. reflexivity.
Qed.

(** X19. The conversion of a component can fail, although the source says
    it cannot: on a version of that form, [parse] returns an error exactly
    when some component writes a number beyond the range of [int]; the
    error is on the first such component, and the components before it are
    the only ones set. *)
Theorem parse_out_of_range (v : BuildInfo) (c : ascii) (d1 d2 d3 rest : string) :
  Version v = String c (d1 +:+ String "." (d2 +:+ String "." (d3 +:+ rest))) →
  Ascii.eqb c "v" || Ascii.eqb c "V" = true →
  nonempty d1 = true → nonempty d2 = true → nonempty d3 = true →
  all_digits d1 = true → all_digits d2 = true → all_digits d3 = true →
  group_ends rest →
  (snd (parse v) = None ↔ in_range d1 ∧ in_range d2 ∧ in_range d3)
  ∧ (¬ in_range d1 →
     parse v = ({| major := 0; minor := 0; fix_ := 0 |},
                Some (ErrParsingVersion d1 (ErrRange d1))))
  ∧ (in_range d1 → ¬ in_range d2 →
     parse v = ({| major := digits_value 0 d1; minor := 0; fix_ := 0 |},
                Some (ErrParsingVersion d2 (ErrRange d2))))
  ∧ (in_range d1 → in_range d2 → ¬ in_range d3 →
     parse v = ({| major := digits_value 0 d1; minor := digits_value 0 d2;
                   fix_ := 0 |},
                Some (ErrParsingVersion d3 (ErrRange d3)))).
Proof.
  intros Hv Hc Hn1 Hn2 Hn3 Hd1 Hd2 Hd3 Hrest. unfold parse, in_range.
  rewrite Hv, (find_semver_at _ (d1, d2, d3)) by by apply semver_at_groups.
  rewrite !Atoi_digits by done.
  destruct (Z.leb_spec (2 ^ (intSize - 1)) (digits_value 0 d1));
    destruct (Z.leb_spec (2 ^ (intSize - 1)) (digits_value 0 d2));
    destruct (Z.leb_spec (2 ^ (intSize - 1)) (digits_value 0 d3));
    simpl; (split_and!; [split; [try done; intros; lia | try done; intros; lia]
                        | intros; try done; lia | intros; try done; lia
                        | intros; try done; lia]).
Qed.

Lemma semver_at_needs_v (s : string) :
  match s with
  | EmptyString => True
  | String c _ => Ascii.eqb c "v" || Ascii.eqb c "V" = false
  end →
  semver_at s = None.
Proof. destruct s as [|c s]; [done|]. simpl. by intros ->. Qed.

(** X20. A version text without the letter [v] (in either case) holds no
    match: [parse] returns the version 0.0.0 and no error, also for the
    empty text and for a bare [3.5.2]. *)
Theorem parse_without_v (v : BuildInfo) :
  Forall (λ c, Ascii.eqb c "v" || Ascii.eqb c "V" = false)
         (list_ascii_of_string (Version v)) →
  parse v = ({| major := 0; minor := 0; fix_ := 0 |}, None).
Proof.
  intros Hnov. unfold parse.
  assert (Hfind : find_semver (Version v) = None); [|by rewrite Hfind].
  induction (Version v) as [|c s IH]; [done|].
  simpl in Hnov. apply Forall_cons in Hnov as [Hc Hs].
  cbn [find_semver]. rewrite semver_at_needs_v by done. by apply IH.
Qed.

Lemma prefix_cons (a x : ascii) (p s : string) :
  String.prefix (String a p) (String x s) = Ascii.eqb x a && String.prefix p s.
Proof.
  simpl. destruct (Ascii.ascii_dec a x) as [<-|Hne].
  - by rewrite Ascii.eqb_refl.
  - rewrite (proj2 (Ascii.eqb_neq x a)) by congruence. done.
Qed.

Lemma HasPrefix_three (s : string) (a b c : ascii) :
  HasPrefix s (String a (String b (String c "")))
  = match s with
    | String x (String y (String z _)) =>
        Ascii.eqb x a && Ascii.eqb y b && Ascii.eqb z c
    | _ => false
    end.
Proof.
  unfold HasPrefix. destruct s as [|x [|y [|z s]]]; try done.
  - rewrite prefix_cons. simpl. apply andb_false_r.
  - rewrite !prefix_cons. simpl. by rewrite !andb_false_r.
  - rewrite !prefix_cons. destruct s; simpl; by rewrite andb_true_r, andb_assoc.
Qed.

Lemma lower_byte_digit_or_dot (b : ascii) :
  b = "3"%char ∨ b = "2"%char ∨ b = "."%char →
  ∀ x, Ascii.eqb (lower_byte x) b = Ascii.eqb x b.
Proof.
  intros [->|[->| ->]] x;
    destruct x as [[] [] [] [] [] [] [] []]; reflexivity.
Qed.

Lemma lower_byte_v (x : ascii) :
  Ascii.eqb (lower_byte x) "v" = Ascii.eqb x "v" || Ascii.eqb x "V".
Proof. destruct x as [[] [] [] [] [] [] [] []]; reflexivity. Qed.

Lemma not_both_digits (y : ascii) : Ascii.eqb y "3" && Ascii.eqb y "2" = false.
Proof. destruct (Ascii.eqb_spec y "3") as [->|]; done. Qed.

(** X21. On a version text of ASCII bytes, [IsHelm3] holds exactly when
    the text begins with [v3.] or [V3.], and [IsHelm2] exactly when it
    begins with [v2.] or [V2.]; the two never hold together. Nothing after
    the first dot is looked at. *)
Theorem IsHelm3_IsHelm2_ascii (v : BuildInfo) :
  is_ascii (Version v) = true →
  IsHelm3 v = HasPrefix (Version v) "v3." || HasPrefix (Version v) "V3."
  ∧ IsHelm2 v = HasPrefix (Version v) "v2." || HasPrefix (Version v) "V2."
  ∧ IsHelm3 v && IsHelm2 v = false.
Proof.
  intros Hascii. unfold IsHelm3, IsHelm2, ToLower. rewrite Hascii.
  rewrite !HasPrefix_three.
  destruct (Version v) as [|x [|y [|z s]]]; try done.
  cbn [lower_bytes].
  rewrite lower_byte_v, !lower_byte_digit_or_dot by tauto.
  pose proof (not_both_digits y) as Hy.
  destruct (Ascii.eqb x "v"), (Ascii.eqb x "V"), (Ascii.eqb y "3"),
    (Ascii.eqb y "2"), (Ascii.eqb z "."); done.
Qed.

End VersionProperties.

Lemma parse_semantic_version_witness :
  @helm_version.parse amd64 (helm_version.of_version "v3.5.2+g167aac7")
  = ({| helm_version.major := 3; helm_version.minor := 5; helm_version.fix_ := 2 |},
     None).
Proof.
  exact (@parse_semantic_version amd64 (helm_version.of_version "v3.5.2+g167aac7")
           "v" "3" "5" "2" "+g167aac7"
           eq_refl eq_refl eq_refl eq_refl eq_refl eq_refl eq_refl eq_refl
           eq_refl eq_refl eq_refl eq_refl).
Defined.

Lemma parse_out_of_range_witness :
  @helm_version.parse amd64 (helm_version.of_version "V3.99999999999999999999.1")
  = ({| helm_version.major := 3; helm_version.minor := 0; helm_version.fix_ := 0 |},
     Some (helm_version.ErrParsingVersion "99999999999999999999"
             (ErrRange "99999999999999999999"))).
Proof.
  destruct (@parse_out_of_range amd64
              (helm_version.of_version "V3.99999999999999999999.1")
              "V" "3" "99999999999999999999" "1" ""
              eq_refl eq_refl eq_refl eq_refl eq_refl eq_refl eq_refl eq_refl I)
    as (_ & _ & Hminor & _).
  apply Hminor; [reflexivity|]. intros Hrange. discriminate Hrange.
Defined.

Lemma parse_without_v_witness :
  @helm_version.parse amd64 (helm_version.of_version "3.5.2")
  = ({| helm_version.major := 0; helm_version.minor := 0; helm_version.fix_ := 0 |},
     None).
Proof.
  apply (@parse_without_v amd64 (helm_version.of_version "3.5.2")).
  repeat constructor.
Defined.

Lemma IsHelm3_IsHelm2_ascii_witness :
  @helm_version.IsHelm3 SampleChart.unicode (helm_version.of_version "V3.1.0") = true
  ∧ @helm_version.IsHelm2 SampleChart.unicode (helm_version.of_version "V3.1.0") = false.
Proof.
  destruct (@IsHelm3_IsHelm2_ascii SampleChart.unicode
              (helm_version.of_version "V3.1.0") eq_refl) as (H3 & H2 & _).
  split; [exact H3 | exact H2].
Defined.

(* ===================================================================== *)
(** ** Which files of the crds directory are collected *)
(* ===================================================================== *)

Section CollectedFiles.
Context `{FsEnv} `{GoUnicode}.

Lemma list_ascii_app (a b : string) :
  list_ascii_of_string (a +:+ b) = list_ascii_of_string a ++ list_ascii_of_string b.
Proof.
  induction a as [|x a IH]; [done|]. rewrite string_app_cons. simpl. by rewrite IH.
Qed.

Lemma Ext_scan_extension (is_separator : ascii → bool) (ext back suffix : list ascii) :
  Forall (λ c, is_separator c = false ∧ Ascii.eqb c "." = false) ext →
  is_separator "."%char = false →
  Ext_scan is_separator (ext ++ "."%char :: back) suffix
  = string_of_list_ascii ("."%char :: rev ext ++ suffix).
Proof.
  intros Hext Hdot. revert suffix.
  induction Hext as [|c ext [Hsep Hc] _ IH]; intros suffix; simpl.
  - by rewrite Hdot.
  - rewrite Hsep, Hc, IH. by rewrite <- app_assoc.
Qed.

Lemma string_of_list_ascii_app (a b : list ascii) :
  string_of_list_ascii (a ++ b) = string_of_list_ascii a +:+ string_of_list_ascii b.
Proof.
  induction a as [|x a IH]; [done|]. simpl. by rewrite string_app_cons, IH.
Qed.

Lemma filepath_Ext_extension (stem ext : string) :
  Forall (λ c, os_IsPathSeparator c = false ∧ Ascii.eqb c "." = false)
         (list_ascii_of_string ext) →
  os_IsPathSeparator "."%char = false →
  filepath_Ext (stem +:+ String "." ext) = String "." ext.
Proof.
  intros Hext Hdot. unfold filepath_Ext.
  rewrite list_ascii_app. cbn [list_ascii_of_string]. rewrite rev_app_distr.
  cbn [rev]. rewrite <- app_assoc. cbn [app].
  rewrite Ext_scan_extension; [| |done].
  - rewrite app_nil_r, rev_involutive. cbn [string_of_list_ascii].
    by rewrite string_of_list_ascii_of_string.
  - apply Forall_rev. exact Hext.
Qed.

(** X22. Which entries of the crds directory are read. An entry named
    [<stem>.<ext>], where [<ext>] holds no dot, no path separator and
    ASCII bytes only, is collected exactly when it is not a directory and
    [<ext>] is [yaml] in any mix of upper and lower case; a [.yml] file is
    passed over. *)
Theorem is_crd_file_extension (stem ext : string) (dir : bool) :
  Forall (λ c, os_IsPathSeparator c = false ∧ Ascii.eqb c "." = false)
         (list_ascii_of_string ext) →
  os_IsPathSeparator "."%char = false →
  is_ascii ext = true →
  is_crd_file {| Name := stem +:+ String "." ext; IsDir := dir |}
  = negb dir && String.eqb (lower_bytes ext) "yaml".
Proof.
  intros Hext Hdot Hascii. unfold is_crd_file. simpl.
  rewrite filepath_Ext_extension by done.
  unfold ToLower, is_ascii in *. cbn [list_ascii_of_string forallb].
  rewrite Hascii. reflexivity.
Qed.

End CollectedFiles.

Lemma is_crd_file_extension_witness :
  @is_crd_file SampleChart.fs SampleChart.unicode
    {| Name := "crd.v1.YaMl"; IsDir := false |} = true
  ∧ @is_crd_file SampleChart.fs SampleChart.unicode
      {| Name := "notes.yml"; IsDir := false |} = false.
Proof.
  split.
  - exact (@is_crd_file_extension SampleChart.fs SampleChart.unicode "crd.v1" "YaMl"
             false ltac:(repeat constructor) eq_refl eq_refl).
  - exact (@is_crd_file_extension SampleChart.fs SampleChart.unicode "notes" "yml"
             false ltac:(repeat constructor) eq_refl eq_refl).
Defined.

(* ===================================================================== *)
(** ** TrimSpace leaves nothing to trim *)
(* ===================================================================== *)

Section Trimmed.

Lemma substring_all (s : string) : String.substring 0 (String.length s) s = s.
Proof. induction s as [|c s IH]; [done|]. simpl. by rewrite IH. Qed.

Lemma drop_bytes_app (r t : string) : drop_bytes (String.length r) (r +:+ t) = t.
Proof.
  unfold drop_bytes. rewrite string_app_length.
  replace (String.length r + String.length t - String.length r)
    with (String.length t) by lia.
  induction r as [|c r IH]; [apply substring_all|].
  rewrite string_app_cons. exact IH.
Qed.

Lemma prefix_app (r s q : string) :
  String.prefix r s = true → String.prefix r (s +:+ q) = true.
Proof.
  intros Hp. destruct (prefix_split _ _ Hp) as [t ->].
  rewrite string_app_assoc. clear Hp.
  induction r as [|c r IH]; [by destruct (t +:+ q)|].
  rewrite string_app_cons, prefix_cons, IH. by rewrite Ascii.eqb_refl.
Qed.

Lemma strip_prefix_of_Some (runes : list string) (s s' : string) :
  Forall (λ r, nonempty r = true) runes →
  strip_prefix_of runes s = Some s' →
  ∃ r, nonempty r = true ∧ s = r +:+ s'.
Proof.
  induction 1 as [|r runes Hr _ IH]; simpl; [done|].
  destruct (String.prefix r s) eqn:Hp; [|exact IH].
  intros [= <-]. destruct (prefix_split _ _ Hp) as [t ->].
  exists r. by rewrite drop_bytes_app.
Qed.

Lemma strip_prefix_of_None (runes : list string) (s : string) :
  strip_prefix_of runes s = None ↔ Forall (λ r, String.prefix r s = false) runes.
Proof.
  induction runes as [|r runes IH]; simpl; [by split; [constructor|]|].
  destruct (String.prefix r s) eqn:Hp.
  - split; [done|]. intros Hall. apply Forall_cons in Hall as [Hr _]. congruence.
  - rewrite IH. split; [by constructor|]. by intros [_ ?]%Forall_cons.
Qed.

Lemma trim_left_runes_suffix (fuel : nat) (runes : list string) (s : string) :
  Forall (λ r, nonempty r = true) runes →
  ∃ p, s = p +:+ trim_left_runes fuel runes s.
Proof.
  intros Hrunes. revert s. induction fuel as [|fuel IH]; intros s; simpl.
  - by exists "".
  - destruct (strip_prefix_of runes s) as [s'|] eqn:Hstrip; [|by exists ""].
    destruct (strip_prefix_of_Some _ _ _ Hrunes Hstrip) as (r & _ & ->).
    destruct (IH s') as [p Hp]. exists (r +:+ p).
    by rewrite string_app_assoc, <- Hp.
Qed.

Lemma trim_left_runes_settles (fuel : nat) (runes : list string) (s : string) :
  Forall (λ r, nonempty r = true) runes →
  (String.length s ≤ fuel)%nat →
  strip_prefix_of runes (trim_left_runes fuel runes s) = None.
Proof.
  intros Hrunes. revert s. induction fuel as [|fuel IH]; intros s Hlen; simpl.
  - destruct s; [|simpl in Hlen; lia].
    apply strip_prefix_of_None. eapply Forall_impl; [exact Hrunes|].
    intros r Hr. by destruct r.
  - destruct (strip_prefix_of runes s) as [s'|] eqn:Hstrip; [|done].
    apply IH. destruct (strip_prefix_of_Some _ _ _ Hrunes Hstrip) as (r & Hr & ->).
    rewrite string_app_length in Hlen. destruct r; [done|]. simpl in Hlen. lia.
Qed.

Lemma trim_left_runes_settled (fuel : nat) (runes : list string) (s : string) :
  strip_prefix_of runes s = None → trim_left_runes fuel runes s = s.
Proof. intros Hs. destruct fuel; simpl; [done|]. by rewrite Hs. Qed.

Lemma reverse_involutive (s : string) : reverse (reverse s) = s.
Proof.
  unfold reverse.
  by rewrite list_ascii_of_string_of_list_ascii, rev_involutive,
    string_of_list_ascii_of_string.
Qed.

Lemma reverse_app (a b : string) : reverse (a +:+ b) = reverse b +:+ reverse a.
Proof.
  unfold reverse.
  by rewrite list_ascii_app, rev_app_distr, string_of_list_ascii_app.
Qed.

Lemma reverse_length (s : string) : String.length (reverse s) = String.length s.
Proof.
  unfold reverse.
  assert (Hlen : ∀ l, String.length (string_of_list_ascii l) = length l).
  { induction l as [|c l IH]; [done|]. simpl. by rewrite IH. }
  assert (Hlen' : ∀ t, length (list_ascii_of_string t) = String.length t).
  { induction t as [|c t IH]; [done|]. simpl. by rewrite IH. }
  by rewrite Hlen, length_rev, Hlen'.
Qed.

Lemma space_runes_nonempty : Forall (λ r, nonempty r = true) space_runes.
Proof. repeat constructor. Qed.

Lemma reversed_space_runes_nonempty :
  Forall (λ r, nonempty r = true) (map reverse space_runes).
Proof. repeat constructor. Qed.

Lemma TrimLeftSpace_settles (s : string) :
  strip_prefix_of space_runes (TrimLeftSpace s) = None.
Proof. apply trim_left_runes_settles; [apply space_runes_nonempty|done]. Qed.

Lemma TrimRightSpace_prefix (s : string) : ∃ q, s = TrimRightSpace s +:+ q.
Proof.
  unfold TrimRightSpace.
  destruct (trim_left_runes_suffix (String.length s) (map reverse space_runes)
              (reverse s) reversed_space_runes_nonempty) as [p Hp].
  exists (reverse p).
  by rewrite <- reverse_app, <- Hp, reverse_involutive.
Qed.

Lemma TrimRightSpace_settles (s : string) :
  strip_prefix_of (map reverse space_runes) (reverse (TrimRightSpace s)) = None.
Proof.
  unfold TrimRightSpace. rewrite reverse_involutive.
  apply trim_left_runes_settles; [apply reversed_space_runes_nonempty|].
  by rewrite reverse_length.
Qed.

(** A trimmed text begins with no white space and ends with none, and
    trimming it again changes nothing. *)
Lemma TrimSpace_trimmed (s : string) :
  strip_prefix_of space_runes (TrimSpace s) = None
  ∧ strip_prefix_of (map reverse space_runes) (reverse (TrimSpace s)) = None
  ∧ TrimSpace (TrimSpace s) = TrimSpace s.
Proof.
  assert (Hleft : strip_prefix_of space_runes (TrimSpace s) = None).
  { unfold TrimSpace.
    destruct (TrimRightSpace_prefix (TrimLeftSpace s)) as [q Hq].
    apply strip_prefix_of_None.
    pose proof (proj1 (strip_prefix_of_None _ _) (TrimLeftSpace_settles s)) as Hall.
    eapply Forall_impl; [exact Hall|]. intros r Hr.
    destruct (String.prefix r (TrimRightSpace (TrimLeftSpace s))) eqn:Hp; [|done].
    apply (prefix_app _ _ q) in Hp. rewrite <- Hq in Hp. congruence. }
  assert (Hright : strip_prefix_of (map reverse space_runes)
                     (reverse (TrimSpace s)) = None)
    by apply TrimRightSpace_settles.
  split_and!; [done..|].
  unfold TrimSpace at 1. unfold TrimLeftSpace at 1.
  rewrite trim_left_runes_settled by done.
  unfold TrimRightSpace at 1.
  rewrite trim_left_runes_settled by done.
  apply reverse_involutive.
Qed.

End Trimmed.

Section CleanManifestTrimmed.
Context `{YamlLib}.

(** X23. The text [cleanManifest] returns begins with no white space and
    ends with none (Unicode white space included), for every input and
    every parser; trimming it again gives it back. *)
Theorem cleanManifest_trimmed (manifest : string) :
  strip_prefix_of space_runes (fst (cleanManifest manifest)) = None
  ∧ strip_prefix_of (map reverse space_runes)
      (reverse (fst (cleanManifest manifest))) = None
  ∧ TrimSpace (fst (cleanManifest manifest)) = fst (cleanManifest manifest).
Proof. unfold cleanManifest. simpl. apply TrimSpace_trimmed. Qed.

End CleanManifestTrimmed.

(* ===================================================================== *)
(** ** Properties of the search for the helm binary in an archive *)
(* ===================================================================== *)

Section ArchiveProperties.
Context `{ArchiveEnv}.

Lemma decompressedGZippedBin_loop_steps (pre tr : list tar_next) :
  Forall (λ next, is_stepped_over next = true) pre →
  decompressedGZippedBin_loop (pre ++ tr) = decompressedGZippedBin_loop tr.
Proof.
  induction 1 as [|next pre Hnext _ IH]; [done|]. simpl.
  destruct next as [err|[header|] content]; [done| |exact IH].
  simpl in Hnext. apply negb_true_iff in Hnext. by rewrite Hnext.
Qed.

(** X24. The tar archive is searched in order for the first regular file
    whose base name is [helm]: entries before it are stepped over whatever
    they are (a directory named [helm] included), entries after it are not
    looked at, and its bytes are the result; if they cannot be read the
    call fails. An archive error met before it makes the call fail, and an
    archive without such a file gives the no-file error. *)
Theorem decompressedGZippedBin_first_match (body : string) (tr : list tar_next) :
  gzip_tar body = inl tr →
  (∀ pre header content post,
     tr = pre ++ TarEntry (Some header) content :: post →
     Forall (λ next, is_stepped_over next = true) pre →
     is_helm_binary (TarEntry (Some header) content) = true →
     decompressedGZippedBin body
     = match content with
       | (helmBytes, None) => (Some helmBytes, None)
       | (_, Some _) => (None, Some (ErrReadingTarEntry (tar_Name header)))
       end)
  ∧ (∀ pre err post,
       tr = pre ++ TarFailed err :: post →
       Forall (λ next, is_stepped_over next = true) pre →
       decompressedGZippedBin body = (None, Some (ErrParsingTar err)))
  ∧ (Forall (λ next, is_stepped_over next = true) tr →
     decompressedGZippedBin body = (None, Some ErrNoHelmInTar)).
Proof.
  intros Hbody. unfold decompressedGZippedBin. rewrite Hbody. split_and!.
  - intros pre header content post -> Hpre Hhelm.
    rewrite decompressedGZippedBin_loop_steps by done. simpl in *.
    rewrite Hhelm. by destruct content as [helmBytes [err|]].
  - intros pre err post -> Hpre.
    by rewrite decompressedGZippedBin_loop_steps.
  - intros Hall. rewrite <- (app_nil_r tr).
    by rewrite decompressedGZippedBin_loop_steps.
Qed.

Lemma decompressZippedBin_loop_steps (pre files : list zip_file) :
  Forall (λ zipFile, is_helm_exe zipFile = false) pre →
  decompressZippedBin_loop (pre ++ files) = decompressZippedBin_loop files.
Proof.
  induction 1 as [|zipFile pre Hfile _ IH]; [done|]. simpl.
  unfold is_helm_exe in Hfile. by rewrite Hfile.
Qed.

(** X25. The zip archive is searched in order for the first file whose
    base name is [helm.exe], whatever kind of entry it is: its bytes are
    the result, an error of opening or reading it is returned as it is,
    and later files are not looked at. An archive without such a file
    gives the no-file error. *)
Theorem decompressZippedBin_first_match (body : string) (files : list zip_file) :
  zip_NewReader body = inl files →
  (∀ pre zipFile post,
     files = pre ++ zipFile :: post →
     Forall (λ zipFile, is_helm_exe zipFile = false) pre →
     is_helm_exe zipFile = true →
     decompressZippedBin body
     = match zip_Open zipFile, zip_ReadAll zipFile with
       | Some err, _ => (None, Some (ErrFromLibrary err))
       | None, (_, Some err) => (None, Some (ErrFromLibrary err))
       | None, (helmBytes, None) => (Some helmBytes, None)
       end)
  ∧ (Forall (λ zipFile, is_helm_exe zipFile = false) files →
     decompressZippedBin body = (None, Some ErrNoHelmInZip)).
Proof.
  intros Hbody. unfold decompressZippedBin. rewrite Hbody. split.
  - intros pre zipFile post -> Hpre Hexe.
    rewrite decompressZippedBin_loop_steps by done. simpl.
    unfold is_helm_exe in Hexe. rewrite Hexe.
    destruct (zip_Open zipFile); [done|].
    by destruct (zip_ReadAll zipFile) as [helmBytes [err|]].
  - intros Hall. rewrite <- (app_nil_r files).
    by rewrite decompressZippedBin_loop_steps.
Qed.

End ArchiveProperties.

Lemma decompressedGZippedBin_first_match_witness :
  @decompressedGZippedBin SampleArchive.env "release.tar.gz"
  = (Some "ELF helm", None).
Proof.
  destruct (@decompressedGZippedBin_first_match SampleArchive.env "release.tar.gz"
              SampleArchive.release eq_refl) as (Hfound & _ & _).
  apply (Hfound
           [ TarEntry (Some {| tar_Name := "linux-amd64/"; tar_Typeflag := "5" |})
                      ("", None);
             TarEntry (Some {| tar_Name := "linux-amd64/helm/"; tar_Typeflag := "5" |})
                      ("", None);
             TarEntry (Some {| tar_Name := "linux-amd64/LICENSE"; tar_Typeflag := "0" |})
                      ("Apache License", None) ]
           {| tar_Name := "linux-amd64/helm"; tar_Typeflag := "0" |}
           ("ELF helm", None)
           [ TarEntry (Some {| tar_Name := "linux-amd64/extra/helm";
                               tar_Typeflag := "0" |}) ("ELF other", None) ]);
    [reflexivity | repeat constructor | reflexivity].
Defined.

Lemma decompressZippedBin_first_match_witness :
  @decompressZippedBin SampleArchive.env "release.zip" = (Some "MZ helm", None).
Proof.
  destruct (@decompressZippedBin_first_match SampleArchive.env "release.zip"
              SampleArchive.windows_release eq_refl) as (Hfound & _).
  apply (Hfound
           [ {| zip_Name := "windows-amd64/LICENSE"; zip_Open := None;
                zip_ReadAll := ("Apache License", None) |} ]
           {| zip_Name := "windows-amd64/helm.exe"; zip_Open := None;
              zip_ReadAll := ("MZ helm", None) |} []);
    [reflexivity | repeat constructor | reflexivity].
Defined.

Section PullFurther.
Context `{HelmEnv}.

(** X26. [Pull] returns no error exactly when the repository lookup
    answered and the run of helm reported no error. Unlike [Template] it
    does not look at what helm wrote to the error stream when the run
    succeeded. *)
Theorem Pull_success (repoURL chart version into : string) :
  Pull repoURL chart version into = None
  ↔ ∃ pullArgs, Pull_command repoURL chart version into = (pullArgs, None)
      ∧ run_error (exec_helm pullArgs) = None.
Proof.
  unfold Pull.
  destruct (Pull_command repoURL chart version into) as [pullArgs [err|]] eqn:Hcmd.
  - split; [done|]. by intros (args & [=] & _).
  - destruct (run_error (exec_helm pullArgs)) as [err|] eqn:Hrun.
    + split; [done|]. intros (args & [= <-] & Hrun'). congruence.
    + split; [|done]. intros _. by exists pullArgs.
Qed.

End PullFurther.

(* ===================================================================== *)
(** ** Idempotence of the backfill and the YAML library *)
(* ===================================================================== *)

(** C8 as it is worded, for every stream on which the call succeeds, does
    not hold: with a library that writes the float negative zero as [-0]
    and reads [-0] back as the integer zero, as yaml.v3 does, the first
    run on [a: -0.0] returns a text on which the second run returns another
    text. *)
Lemma injectNamespaceBack_twice_differs :
  @injectNamespaceBack SampleNegativeZero.yaml SampleNegativeZero.input "prod"
  = Returns (SampleNegativeZero.first_output, None)
  ∧ @injectNamespaceBack SampleNegativeZero.yaml SampleNegativeZero.first_output "prod"
    = Returns (SampleNegativeZero.second_output, None)
  ∧ SampleNegativeZero.first_output ≠ SampleNegativeZero.second_output.
Proof. split_and!; [reflexivity | reflexivity | discriminate]. Qed.
